(** * wsio: the WebSocket transport adapter of azure-uamqp-c (src/wsio.c)

    A shallow embedding of [wsio.c] and the verification of its lifecycle
    state machine, its pending-IO queue and its libwebsockets dispatcher.

    The C code mutates one [WSIO_INSTANCE] through a handle, calls into the
    allocator, the [list] container and libwebsockets, and calls back into
    its user.  Here every function takes the instance and returns the updated
    one, inside a state-and-failure monad [M] over a [world] that holds
    - the heap of live allocations (block identities only),
    - the script of allocation outcomes still to come, and
    - the trace of every call that leaves the module (user callbacks and
      libwebsockets entry points), in the order the calls are made.
    A computation yields [None] where the C program has no defined behaviour
    (a call through a NULL function pointer).  Results that libwebsockets
    decides (what [lws_write] returns, whether a context can be created) are
    explicit arguments of the function that asks for them.  So are the
    callbacks that libwebsockets makes from inside [lws_service] and from
    inside [lws_client_connect]; its other entry points are taken to return
    without calling back. *)

From Stdlib Require Import ZArith NArith Lia List String.
From Stdlib.Strings Require Import Byte.
From stdpp Require Import base tactics option list gmap sets strings.

Open Scope Z_scope.

(** ** Values that cross the module boundary *)

(** Identity of a heap block handed out by the allocator. *)
Definition ptr := nat.
(** Identity of a function supplied by the caller. *)
Definition fnptr := nat.
(** An opaque [void*] the caller wants back in its callbacks. *)
Definition context := nat.

(** A pointer the module owns together with what it points to. *)
Record owned (A : Type) := Owned { addr : ptr; val : A }.
Arguments Owned {A} _ _.
Arguments addr {A} _.
Arguments val {A} _.

Inductive IO_STATE :=
| IO_STATE_NOT_OPEN
| IO_STATE_OPENING
| IO_STATE_OPEN
| IO_STATE_CLOSING
| IO_STATE_ERROR.

Inductive IO_SEND_RESULT := IO_SEND_OK | IO_SEND_ERROR | IO_SEND_CANCELLED.
Inductive IO_OPEN_RESULT := IO_OPEN_OK | IO_OPEN_ERROR | IO_OPEN_CANCELLED.

#[global] Instance IO_STATE_eq_dec : EqDecision IO_STATE.
Proof. solve_decision. Defined.
#[global] Instance IO_SEND_RESULT_eq_dec : EqDecision IO_SEND_RESULT.
Proof. solve_decision. Defined.
#[global] Instance IO_OPEN_RESULT_eq_dec : EqDecision IO_OPEN_RESULT.
Proof. solve_decision. Defined.

(** Every call that leaves wsio.c. *)
Inductive call :=
| Call_on_send_complete (f : fnptr) (ctx : context) (r : IO_SEND_RESULT)
| Call_on_io_open_complete (f : fnptr) (ctx : context) (r : IO_OPEN_RESULT)
| Call_on_io_error (f : fnptr) (ctx : context)
| Call_on_bytes_received (f : fnptr) (ctx : context)
    (buffer : option (list byte)) (len : N)
| Call_on_io_close_complete (f : fnptr) (ctx : context)
| Call_LOG (f : fnptr) (b : byte)
| Call_lws_create_context (user : ptr) (result : option ptr)
| Call_lws_client_connect (ws_context : option ptr) (address : string)
    (port : Z) (use_ssl : bool) (path : string) (protocol : option string)
    (result : option ptr)
| Call_lws_context_destroy (ws_context : option ptr)
| Call_lws_write (wsi : option ptr) (buf : list byte) (len : N) (result : Z)
| Call_lws_callback_on_writable (wsi : option ptr)
| Call_lws_service (ws_context : option ptr)
| Call_X509_load (pem : string).

(** ** The world and the monad *)

Record world := World {
  live : gset ptr;
  next : ptr;
  plan : list bool;
  log : list call }.

Definition M (A : Type) : Type := world -> option (A * world).

Definition ret {A} (a : A) : M A := fun w => Some (a, w).

Definition bind {A B} (m : M A) (k : A -> M B) : M B :=
  fun w => match m w with
           | Some (a, w') => k a w'
           | None => None
           end.

(** The C program has no defined behaviour from here on. *)
Definition undefined {A} : M A := fun _ => None.

Notation "'do' x <- c ; k" := (bind c (fun x => k))
  (at level 10, x name, c at level 100, k at level 200).
Notation "'do' ' pat <- c ; k" :=
  (bind c (fun x => match x with pat => k end))
  (at level 10, pat pattern, c at level 100, k at level 200).
Notation "c ;; k" := (bind c (fun _ => k))
  (at level 100, k at level 200, right associativity).

Definition emit (c : call) : M unit :=
  fun w => Some (tt, World (live w) (next w) (plan w) (log w ++ [c])).

(** Modelled from the spec: the allocator of amqpalloc.h, an opaque utility
    that either hands out a fresh block or fails.  The next outcome is the
    head of [plan]; an exhausted plan means the allocation succeeds. *)
Definition amqpalloc_malloc : M (option ptr) :=
  fun w =>
    if hd true (plan w) then
      Some (Some (next w),
            World ({[next w]} ∪ live w) (S (next w)) (tl (plan w)) (log w))
    else Some (None, World (live w) (next w) (tl (plan w)) (log w)).

(** Modelled from the spec: [amqpalloc_free]; freeing NULL does nothing. *)
Definition amqpalloc_free (p : option ptr) : M unit :=
  fun w =>
    match p with
    | Some a => Some (tt, World (live w ∖ {[a]}) (next w) (plan w) (log w))
    | None => Some (tt, w)
    end.

(** ** The list container

    list.c is not part of the sources at hand; wsio.c only calls it.  The
    functions below are modelled from the specification, which treats the
    container as an ordered sequence: it keeps insertion order, allocates
    one node per added value, hands out its first node as the head, and
    removes the node it is given when that node is in the list. *)

Section LIST.
Context {V : Type}.

(** A node of the list: its own block and the value pointer it stores. *)
Definition LIST_ITEM_HANDLE := owned V.
(** The list: its handle block and its nodes, head first. *)
Definition LIST_HANDLE := owned (list LIST_ITEM_HANDLE).

(** Modelled from the spec: [list_create] of list.c, which allocates the
    handle of an empty list or fails. *)
Definition list_create : M (option LIST_HANDLE) :=
  do p <- amqpalloc_malloc ;
  ret (match p with Some a => Some (Owned a []) | None => None end).

(** Modelled from the spec: the loop of [list_destroy] over the nodes. *)
Fixpoint free_nodes (items : list LIST_ITEM_HANDLE) : M unit :=
  match items with
  | [] => ret tt
  | it :: rest => amqpalloc_free (Some (addr it)) ;; free_nodes rest
  end.

(** Modelled from the spec: [list_destroy] of list.c, which frees the nodes
    and the handle, not the values. *)
Definition list_destroy (l : LIST_HANDLE) : M unit :=
  free_nodes (val l) ;;
  amqpalloc_free (Some (addr l)).

(** Modelled from the spec: [list_add] of list.c, which appends at the tail
    and answers NULL when the node cannot be allocated. *)
Definition list_add (l : LIST_HANDLE) (v : V)
  : M (option LIST_ITEM_HANDLE * LIST_HANDLE) :=
  do p <- amqpalloc_malloc ;
  match p with
  | None => ret (None, l)
  | Some a => ret (Some (Owned a v), Owned (addr l) (val l ++ [Owned a v]))
  end.

(** Modelled from the spec: [list_get_head_item] of list.c; NULL on an empty
    list. *)
Definition list_get_head_item (l : LIST_HANDLE) : option LIST_ITEM_HANDLE :=
  head (val l).

(** Modelled from the spec: [list_item_get_value] of list.c.  A node holds
    the value it was added with, so the answer is never NULL. *)
Definition list_item_get_value (it : LIST_ITEM_HANDLE) : option V :=
  Some (val it).

(** Modelled from the spec: the search of [list_remove] for the node at
    address [a]. *)
Fixpoint remove_node (a : ptr) (items : list LIST_ITEM_HANDLE)
  : option (list LIST_ITEM_HANDLE) :=
  match items with
  | [] => None
  | it :: rest =>
      if Nat.eqb (addr it) a then Some rest
      else match remove_node a rest with
           | Some rest' => Some (it :: rest')
           | None => None
           end
  end.

(** Modelled from the spec: [list_remove] of list.c, which unlinks and frees
    the node and answers 0, or answers non-zero when the node is not in the
    list. *)
Definition list_remove (l : LIST_HANDLE) (it : LIST_ITEM_HANDLE)
  : M (Z * LIST_HANDLE) :=
  match remove_node (addr it) (val l) with
  | Some items' =>
      amqpalloc_free (Some (addr it)) ;;
      ret (0, Owned (addr l) items')
  | None => ret (1, l)
  end.

(** A write through the value pointer of a node: the node keeps its place
    and the list sees the new contents. *)
Fixpoint store_node (a : ptr) (v : V) (items : list LIST_ITEM_HANDLE)
  : list LIST_ITEM_HANDLE :=
  match items with
  | [] => []
  | it :: rest =>
      if Nat.eqb (addr it) a then Owned a v :: rest
      else it :: store_node a v rest
  end.
End LIST.

Arguments LIST_ITEM_HANDLE : clear implicits.
Arguments LIST_HANDLE : clear implicits.

(** ** The data of wsio.c *)

Record PENDING_SOCKET_IO := {
  bytes : owned (list byte);
  size : N;
  on_send_complete : option fnptr;
  callback_context : context;
  io_pending_io_list : ptr;
  is_partially_sent : bool }.

(** One row of the protocol table handed to libwebsockets. *)
Record lws_protocols := {
  name : option string;
  callback : bool;  (* [true]: on_ws_callback; [false]: NULL *)
  per_session_data_size : N;
  rx_buffer_size : N;
  id : Z;
  user : option ptr }.

Record WSIO_CONFIG := {
  cfg_host : option string;
  cfg_port : Z;
  cfg_protocol_name : option string;
  cfg_relative_path : option string;
  cfg_use_ssl : bool;
  cfg_trusted_ca : option string }.

Record WSIO_INSTANCE := {
  self : ptr;
  on_bytes_received : option fnptr;
  on_io_open_complete : option fnptr;
  on_io_error : option fnptr;
  logger_log : option fnptr;
  open_callback_context : context;
  io_state : IO_STATE;
  pending_io_list : LIST_HANDLE (owned PENDING_SOCKET_IO);
  ws_context : option ptr;
  wsi : option ptr;
  port : Z;
  host : owned string;
  relative_path : owned string;
  protocol_name : owned string;
  trusted_ca : option (owned string);
  protocols : owned (list lws_protocols);
  use_ssl : bool }.

Definition set_io_state (i : WSIO_INSTANCE) (s : IO_STATE) : WSIO_INSTANCE :=
  {| self := self i; on_bytes_received := on_bytes_received i;
     on_io_open_complete := on_io_open_complete i;
     on_io_error := on_io_error i; logger_log := logger_log i;
     open_callback_context := open_callback_context i; io_state := s;
     pending_io_list := pending_io_list i; ws_context := ws_context i;
     wsi := wsi i; port := port i; host := host i;
     relative_path := relative_path i; protocol_name := protocol_name i;
     trusted_ca := trusted_ca i; protocols := protocols i;
     use_ssl := use_ssl i |}.

Definition set_pending_io_list (i : WSIO_INSTANCE)
    (l : LIST_HANDLE (owned PENDING_SOCKET_IO)) : WSIO_INSTANCE :=
  {| self := self i; on_bytes_received := on_bytes_received i;
     on_io_open_complete := on_io_open_complete i;
     on_io_error := on_io_error i; logger_log := logger_log i;
     open_callback_context := open_callback_context i;
     io_state := io_state i;
     pending_io_list := l; ws_context := ws_context i;
     wsi := wsi i; port := port i; host := host i;
     relative_path := relative_path i; protocol_name := protocol_name i;
     trusted_ca := trusted_ca i; protocols := protocols i;
     use_ssl := use_ssl i |}.

Definition set_callbacks (i : WSIO_INSTANCE)
    (recv open_complete err : option fnptr) (ctx : context) : WSIO_INSTANCE :=
  {| self := self i; on_bytes_received := recv;
     on_io_open_complete := open_complete;
     on_io_error := err; logger_log := logger_log i;
     open_callback_context := ctx; io_state := io_state i;
     pending_io_list := pending_io_list i; ws_context := ws_context i;
     wsi := wsi i; port := port i; host := host i;
     relative_path := relative_path i; protocol_name := protocol_name i;
     trusted_ca := trusted_ca i; protocols := protocols i;
     use_ssl := use_ssl i |}.

Definition set_ws_context (i : WSIO_INSTANCE) (c : option ptr)
  : WSIO_INSTANCE :=
  {| self := self i; on_bytes_received := on_bytes_received i;
     on_io_open_complete := on_io_open_complete i;
     on_io_error := on_io_error i; logger_log := logger_log i;
     open_callback_context := open_callback_context i;
     io_state := io_state i;
     pending_io_list := pending_io_list i; ws_context := c;
     wsi := wsi i; port := port i; host := host i;
     relative_path := relative_path i; protocol_name := protocol_name i;
     trusted_ca := trusted_ca i; protocols := protocols i;
     use_ssl := use_ssl i |}.

Definition set_wsi (i : WSIO_INSTANCE) (c : option ptr) : WSIO_INSTANCE :=
  {| self := self i; on_bytes_received := on_bytes_received i;
     on_io_open_complete := on_io_open_complete i;
     on_io_error := on_io_error i; logger_log := logger_log i;
     open_callback_context := open_callback_context i;
     io_state := io_state i;
     pending_io_list := pending_io_list i; ws_context := ws_context i;
     wsi := c; port := port i; host := host i;
     relative_path := relative_path i; protocol_name := protocol_name i;
     trusted_ca := trusted_ca i; protocols := protocols i;
     use_ssl := use_ssl i |}.

(** ** The static helpers of wsio.c

    A function of wsio.c that returns [__LINE__] on failure returns here the
    number of that line in the source. *)

(** wsio.c, lines 57-63. *)
Definition indicate_error (ws_io_instance : WSIO_INSTANCE) : M unit :=
  match on_io_error ws_io_instance with
  | Some f => emit (Call_on_io_error f (open_callback_context ws_io_instance))
  | None => ret tt
  end.

(** wsio.c, lines 65-73. *)
Definition indicate_open_complete (ws_io_instance : WSIO_INSTANCE)
    (open_result : IO_OPEN_RESULT) : M unit :=
  match on_io_open_complete ws_io_instance with
  | Some f =>
      emit (Call_on_io_open_complete f
              (open_callback_context ws_io_instance) open_result)
  | None => ret tt
  end.

(** [pending_socket_io->on_send_complete(callback_context, r)] behind its
    NULL test. *)
Definition indicate_send_complete (pending_socket_io : PENDING_SOCKET_IO)
    (r : IO_SEND_RESULT) : M unit :=
  match on_send_complete pending_socket_io with
  | Some f =>
      emit (Call_on_send_complete f (callback_context pending_socket_io) r)
  | None => ret tt
  end.

(** [memcpy(dst, src, n)] into a fresh buffer. *)
Definition memcpy (src : list byte) (n : N) : list byte :=
  take (N.to_nat n) src.

(** [memmove(buf, buf + off, n)]: the first [n] bytes of [buf] become the
    [n] bytes that start at [off]; the rest of [buf] keeps its contents. *)
Definition memmove (buf : list byte) (off n : N) : list byte :=
  take (N.to_nat n) (drop (N.to_nat off) buf) ++ drop (N.to_nat n) buf.

(** wsio.c, lines 75-118.  [buffer] is what the caller's pointer points to;
    the queued write owns a copy of its first [sz] bytes. *)
Definition add_pending_io (ws_io_instance : WSIO_INSTANCE)
    (buffer : list byte) (sz : N) (on_send_complete : option fnptr)
    (callback_context : context) : M (Z * WSIO_INSTANCE) :=
  do pending_socket_io <- amqpalloc_malloc ;
  match pending_socket_io with
  | None => ret (82, ws_io_instance)
  | Some io =>
      do bytes_p <- amqpalloc_malloc ;
      match bytes_p with
      | None =>
          amqpalloc_free (Some io) ;;
          ret (91, ws_io_instance)
      | Some b =>
          let pending :=
            {| is_partially_sent := false;
               size := sz;
               on_send_complete := on_send_complete;
               callback_context := callback_context;
               io_pending_io_list := addr (pending_io_list ws_io_instance);
               bytes := Owned b (memcpy buffer sz) |} in
          do '(item, l) <- list_add (pending_io_list ws_io_instance)
                                    (Owned io pending) ;
          match item with
          | None =>
              amqpalloc_free (Some b) ;;
              amqpalloc_free (Some io) ;;
              ret (108, ws_io_instance)
          | Some _ => ret (0, set_pending_io_list ws_io_instance l)
          end
      end
  end.

(** After [list_remove] has answered [r]: the instance is in error when the
    node could not be removed. *)
Definition after_list_remove (wsio_instance : WSIO_INSTANCE) (r : Z)
  : M WSIO_INSTANCE :=
  if decide (r <> 0) then
    let i := set_io_state wsio_instance IO_STATE_ERROR in
    indicate_error i ;; ret i
  else ret wsio_instance.

(** wsio.c, lines 120-129. *)
Definition remove_pending_io (wsio_instance : WSIO_INSTANCE)
    (item_handle : LIST_ITEM_HANDLE (owned PENDING_SOCKET_IO))
    (pending_socket_io : owned PENDING_SOCKET_IO) : M WSIO_INSTANCE :=
  amqpalloc_free (Some (addr (bytes (val pending_socket_io)))) ;;
  amqpalloc_free (Some (addr pending_socket_io)) ;;
  do '(r, l) <- list_remove (pending_io_list wsio_instance) item_handle ;
  after_list_remove (set_pending_io_list wsio_instance l) r.

(** ** The libwebsockets callback *)

Inductive lws_callback_reasons :=
| LWS_CALLBACK_CLIENT_ESTABLISHED
| LWS_CALLBACK_CLIENT_CONNECTION_ERROR
| LWS_CALLBACK_CLIENT_WRITEABLE
| LWS_CALLBACK_CLIENT_RECEIVE
| LWS_CALLBACK_OPENSSL_LOAD_EXTRA_CLIENT_VERIFY_CERTS
| LWS_CALLBACK_OTHER.

(** What the libraries answer while one callback runs: the value of
    [lws_write] and whether [BIO_new] could allocate. *)
Record replies := { lws_write_reply : Z; BIO_new_reply : bool }.

(** The failure branch shared by a failed framing-buffer allocation (lines
    215-227) and a negative [lws_write] (lines 238-250). *)
Definition fail_pending_io (wsio_instance : WSIO_INSTANCE)
    (first_pending_io : LIST_ITEM_HANDLE (owned PENDING_SOCKET_IO))
    (pending_socket_io : owned PENDING_SOCKET_IO) : M WSIO_INSTANCE :=
  indicate_send_complete (val pending_socket_io) IO_SEND_ERROR ;;
  do i <- (if is_partially_sent (val pending_socket_io) then
             let i := set_io_state wsio_instance IO_STATE_ERROR in
             indicate_error i ;; ret i
           else ret wsio_instance) ;
  remove_pending_io i first_pending_io pending_socket_io.

(** The case LWS_CALLBACK_CLIENT_WRITEABLE, lines 191-290; [n] is what
    [lws_write] answers.  The partial branch (lines 254-258) moves the bytes
    that remain to the front of the buffer with [memmove] and writes nothing
    else to the pending IO. *)
Definition on_writeable (wsio_instance : WSIO_INSTANCE) (n : Z)
  : M WSIO_INSTANCE :=
  match list_get_head_item (pending_io_list wsio_instance) with
  | None => ret wsio_instance
  | Some first_pending_io =>
      match list_item_get_value first_pending_io with
      | None =>
          let i := set_io_state wsio_instance IO_STATE_ERROR in
          indicate_error i ;; ret i
      | Some pending_socket_io =>
          let p := val pending_socket_io in
          do ws_buffer <- amqpalloc_malloc ;
          do i <-
            match ws_buffer with
            | None =>
                fail_pending_io wsio_instance first_pending_io
                                pending_socket_io
            | Some buf =>
                emit (Call_lws_write (wsi wsio_instance)
                        (memcpy (val (bytes p)) (size p)) (size p) n) ;;
                do i <-
                  (if decide (n < 0) then
                     fail_pending_io wsio_instance first_pending_io
                                     pending_socket_io
                   else if decide (Z.to_N n < size p)%N then
                     (* make pending *)
                     let p' :=
                       {| bytes := Owned (addr (bytes p))
                                     (memmove (val (bytes p)) (Z.to_N n)
                                              (size p - Z.to_N n));
                          size := size p;
                          on_send_complete := on_send_complete p;
                          callback_context := callback_context p;
                          io_pending_io_list := io_pending_io_list p;
                          is_partially_sent := is_partially_sent p |} in
                     let l := pending_io_list wsio_instance in
                     ret (set_pending_io_list wsio_instance
                            (Owned (addr l)
                               (store_node (addr first_pending_io)
                                  (Owned (addr pending_socket_io) p')
                                  (val l))))
                   else
                     indicate_send_complete p IO_SEND_OK ;;
                     amqpalloc_free (Some (addr (bytes p))) ;;
                     amqpalloc_free (Some (addr pending_socket_io)) ;;
                     do '(r, l) <- list_remove (pending_io_list wsio_instance)
                                               first_pending_io ;
                     after_list_remove (set_pending_io_list wsio_instance l) r) ;
                amqpalloc_free (Some buf) ;;
                ret i
            end ;
          match list_get_head_item (pending_io_list i) with
          | Some _ => emit (Call_lws_callback_on_writable (wsi i)) ;; ret i
          | None => ret i
          end
      end
  end.

(** wsio.c, lines 141-351.  The instance is the one that
    [lws_context_user] finds for the connection.  The receive case calls
    on_bytes_received without a NULL test (line 296), and the certificate
    case reads trusted_ca without one (line 316): both are undefined when
    the pointer is NULL.  Of the certificate case only the PEM text handed
    to OpenSSL is kept. *)
Definition on_ws_callback (wsio_instance : WSIO_INSTANCE)
    (reason : lws_callback_reasons) (in_ : option (list byte)) (len : N)
    (e : replies) : M (Z * WSIO_INSTANCE) :=
  match reason with
  | LWS_CALLBACK_CLIENT_ESTABLISHED =>
      match io_state wsio_instance with
      | IO_STATE_OPENING =>
          let i := set_io_state wsio_instance IO_STATE_OPEN in
          indicate_open_complete i IO_OPEN_OK ;;
          ret (0, i)
      | _ =>
          indicate_error wsio_instance ;;
          ret (0, wsio_instance)
      end
  | LWS_CALLBACK_CLIENT_CONNECTION_ERROR =>
      match io_state wsio_instance with
      | IO_STATE_OPENING =>
          indicate_open_complete wsio_instance IO_OPEN_ERROR ;;
          emit (Call_lws_context_destroy (ws_context wsio_instance)) ;;
          ret (0, set_io_state wsio_instance IO_STATE_NOT_OPEN)
      | _ =>
          indicate_error wsio_instance ;;
          ret (0, wsio_instance)
      end
  | LWS_CALLBACK_CLIENT_WRITEABLE =>
      do i <- on_writeable wsio_instance (lws_write_reply e) ;
      ret (0, i)
  | LWS_CALLBACK_CLIENT_RECEIVE =>
      match on_bytes_received wsio_instance with
      | Some f =>
          emit (Call_on_bytes_received f
                  (open_callback_context wsio_instance) in_ len) ;;
          ret (0, wsio_instance)
      | None => undefined
      end
  | LWS_CALLBACK_OPENSSL_LOAD_EXTRA_CLIENT_VERIFY_CERTS =>
      if BIO_new_reply e then
        match trusted_ca wsio_instance with
        | Some ca => emit (Call_X509_load (val ca)) ;; ret (0, wsio_instance)
        | None => undefined
        end
      else ret (0, wsio_instance)
  | LWS_CALLBACK_OTHER => ret (0, wsio_instance)
  end.

(** One callback that libwebsockets makes. *)
Record lws_event := {
  ev_reason : lws_callback_reasons;
  ev_in : option (list byte);
  ev_len : N;
  ev_replies : replies }.

(** The callbacks that libwebsockets makes from inside one of its
    functions, one after the other, before that function returns:
    [lws_service] (line 771) and [lws_client_connect] (line 600). *)
Fixpoint lws_service (events : list lws_event) (i : WSIO_INSTANCE)
  : M WSIO_INSTANCE :=
  match events with
  | [] => ret i
  | e :: rest =>
      do '(_, i') <- on_ws_callback i (ev_reason e) (ev_in e) (ev_len e)
                                    (ev_replies e) ;
      lws_service rest i'
  end.

(** ** The five operations and the pump *)

(** wsio.c, lines 353-498. *)
Definition wsio_create (io_create_parameters : option WSIO_CONFIG)
    (logger_log : option fnptr) : M (option WSIO_INSTANCE) :=
  match io_create_parameters with
  | None => ret None
  | Some ws_io_config =>
  match cfg_host ws_io_config, cfg_protocol_name ws_io_config,
        cfg_relative_path ws_io_config with
  | Some c_host, Some c_protocol_name, Some c_relative_path =>
    do result <- amqpalloc_malloc ;
    match result with
    | None => ret None
    | Some r =>
    do l <- list_create ;
    match l with
    | None => amqpalloc_free (Some r) ;; ret None
    | Some l =>
    do p_host <- amqpalloc_malloc ;
    match p_host with
    | None => list_destroy l ;; amqpalloc_free (Some r) ;; ret None
    | Some h =>
    do p_relative_path <- amqpalloc_malloc ;
    match p_relative_path with
    | None =>
        amqpalloc_free (Some h) ;;
        list_destroy l ;;
        amqpalloc_free (Some r) ;;
        ret None
    | Some rp =>
    do p_protocol_name <- amqpalloc_malloc ;
    match p_protocol_name with
    | None =>
        amqpalloc_free (Some rp) ;;
        amqpalloc_free (Some h) ;;
        list_destroy l ;;
        amqpalloc_free (Some r) ;;
        ret None
    | Some pn =>
    do p_protocols <- amqpalloc_malloc ;
    match p_protocols with
    | None =>
        amqpalloc_free (Some rp) ;;
        amqpalloc_free (Some pn) ;;
        amqpalloc_free (Some h) ;;
        list_destroy l ;;
        amqpalloc_free (Some r) ;;
        ret None
    | Some ps =>
        let table :=
          [ {| callback := true; id := 0; name := Some c_protocol_name;
               per_session_data_size := 0%N; rx_buffer_size := 0%N;
               user := None |};
            {| callback := false; id := 0; name := None;
               per_session_data_size := 0%N; rx_buffer_size := 0%N;
               user := None |} ] in
        let build ca :=
          {| self := r;
             on_bytes_received := None;
             on_io_open_complete := None;
             on_io_error := None;
             logger_log := logger_log;
             open_callback_context := 0%nat;
             io_state := IO_STATE_NOT_OPEN;
             pending_io_list := l;
             ws_context := None;
             wsi := None;
             port := cfg_port ws_io_config;
             host := Owned h c_host;
             relative_path := Owned rp c_relative_path;
             protocol_name := Owned pn c_protocol_name;
             trusted_ca := ca;
             protocols := Owned ps table;
             use_ssl := cfg_use_ssl ws_io_config |} in
        match cfg_trusted_ca ws_io_config with
        | None => ret (Some (build None))
        | Some c_trusted_ca =>
            do p_trusted_ca <- amqpalloc_malloc ;
            match p_trusted_ca with
            | None =>
                amqpalloc_free (Some ps) ;;
                amqpalloc_free (Some pn) ;;
                amqpalloc_free (Some rp) ;;
                amqpalloc_free (Some h) ;;
                list_destroy l ;;
                amqpalloc_free (Some r) ;;
                ret None
            | Some ca => ret (Some (build (Some (Owned ca c_trusted_ca))))
            end
        end
    end end end end end end
  | _, _, _ => ret None
  end
  end.

(** wsio.c, lines 523-618.  The two replies are what [lws_create_context]
    and [lws_client_connect] return, and [during] is the callbacks that
    libwebsockets makes before [lws_client_connect] returns: they find the
    instance OPENING (line 588, before the call at line 600), with the new
    context and with [wsi] not assigned yet. *)
Definition wsio_open_reentrant (ws_io : option WSIO_INSTANCE)
    (on_io_open_complete on_bytes_received on_io_error : option fnptr)
    (callback_context : context)
    (lws_create_context_reply lws_client_connect_reply : option ptr)
    (during : list lws_event)
  : M (Z * option WSIO_INSTANCE) :=
  match ws_io with
  | None => ret (529, None)
  | Some wsio_instance =>
      if decide (io_state wsio_instance <> IO_STATE_NOT_OPEN) then
        ret (538, Some wsio_instance)
      else
        let i := set_callbacks wsio_instance on_bytes_received
                   on_io_open_complete on_io_error callback_context in
        emit (Call_lws_create_context (self i) lws_create_context_reply) ;;
        let i := set_ws_context i lws_create_context_reply in
        match ws_context i with
        | None => ret (584, Some i)
        | Some _ =>
            let i := set_io_state i IO_STATE_OPENING in
            emit (Call_lws_client_connect (ws_context i) (val (host i))
                    (port i) (use_ssl i) (val (relative_path i))
                    (match head (val (protocols i)) with
                     | Some p => name p
                     | None => None
                     end)
                    lws_client_connect_reply) ;;
            do i <- lws_service during i ;
            let i := set_wsi i lws_client_connect_reply in
            match wsi i with
            | None =>
                emit (Call_lws_context_destroy (ws_context i)) ;;
                ret (606, Some (set_io_state i IO_STATE_NOT_OPEN))
            | Some _ => ret (0, Some i)
            end
        end
  end.

(** [wsio_open] when libwebsockets makes no callback before
    [lws_client_connect] returns, as in the histories below, where every
    callback comes from [lws_service] or between two calls. *)
Definition wsio_open (ws_io : option WSIO_INSTANCE)
    (on_io_open_complete on_bytes_received on_io_error : option fnptr)
    (callback_context : context)
    (lws_create_context_reply lws_client_connect_reply : option ptr)
  : M (Z * option WSIO_INSTANCE) :=
  wsio_open_reentrant ws_io on_io_open_complete on_bytes_received
    on_io_error callback_context lws_create_context_reply
    lws_client_connect_reply [].

(** The loop of [wsio_close] that cancels every pending IO (lines 653-676).
    Each round takes the head of the list; [fuel] bounds the rounds and
    [wsio_close] supplies the length of the list, which the loop never
    exceeds ([cancel_pending_ios_drains]). *)
Fixpoint cancel_pending_ios (fuel : nat) (wsio_instance : WSIO_INSTANCE)
  : M WSIO_INSTANCE :=
  match list_get_head_item (pending_io_list wsio_instance) with
  | None => ret wsio_instance
  | Some first_pending_io =>
      match fuel with
      | O => undefined
      | S fuel' =>
          match list_item_get_value first_pending_io with
          | Some pending_socket_io =>
              indicate_send_complete (val pending_socket_io)
                                     IO_SEND_CANCELLED ;;
              amqpalloc_free (Some (addr (bytes (val pending_socket_io)))) ;;
              amqpalloc_free (Some (addr pending_socket_io))
          | None => ret tt
          end ;;
          do '(_, l) <- list_remove (pending_io_list wsio_instance)
                                    first_pending_io ;
          cancel_pending_ios fuel' (set_pending_io_list wsio_instance l)
      end
  end.

(** wsio.c, lines 620-698. *)
Definition wsio_close (ws_io : option WSIO_INSTANCE)
    (on_io_close_complete : option fnptr) (callback_context : context)
  : M (Z * option WSIO_INSTANCE) :=
  match ws_io with
  | None => ret (627, None)
  | Some wsio_instance =>
      if decide (io_state wsio_instance = IO_STATE_NOT_OPEN) then
        ret (637, Some wsio_instance)
      else
        do i <- (if decide (io_state wsio_instance = IO_STATE_OPENING) then
                   indicate_open_complete wsio_instance IO_OPEN_CANCELLED ;;
                   ret wsio_instance
                 else
                   cancel_pending_ios
                     (length (val (pending_io_list wsio_instance)))
                     wsio_instance) ;
        emit (Call_lws_context_destroy (ws_context i)) ;;
        let i := set_io_state i IO_STATE_NOT_OPEN in
        match on_io_close_complete with
        | Some f => emit (Call_on_io_close_complete f callback_context)
        | None => ret tt
        end ;;
        ret (0, Some i)
  end.

(** wsio.c, lines 500-521. *)
Definition wsio_destroy (ws_io : option WSIO_INSTANCE) : M unit :=
  match ws_io with
  | None => ret tt
  | Some wsio_instance =>
      do '(_, closed) <- wsio_close (Some wsio_instance) None 0%nat ;
      let i := match closed with Some i => i | None => wsio_instance end in
      amqpalloc_free (Some (addr (protocols i))) ;;
      amqpalloc_free (Some (addr (host i))) ;;
      amqpalloc_free (Some (addr (protocol_name i))) ;;
      amqpalloc_free (Some (addr (relative_path i))) ;;
      amqpalloc_free (match trusted_ca i with
                      | Some ca => Some (addr ca)
                      | None => None
                      end) ;;
      list_destroy (pending_io_list i) ;;
      amqpalloc_free (Some (self i))
  end.

(** The logging loop of [wsio_send] (lines 726-730): one [LOG] per byte. *)
Fixpoint log_bytes (f : fnptr) (bs : list byte) : M unit :=
  match bs with
  | [] => ret tt
  | b :: rest => emit (Call_LOG f b) ;; log_bytes f rest
  end.

(** wsio.c, lines 701-756.  The reply is what [lws_callback_on_writable]
    returns. *)
Definition wsio_send (ws_io : option WSIO_INSTANCE)
    (buffer : option (list byte)) (sz : N)
    (on_send_complete : option fnptr) (callback_context : context)
    (lws_callback_on_writable_reply : Z)
  : M (Z * option WSIO_INSTANCE) :=
  match ws_io, buffer with
  | Some wsio_instance, Some buf =>
      if decide (sz = 0%N) then ret (711, ws_io)
      else if decide (io_state wsio_instance <> IO_STATE_OPEN) then
        ret (720, Some wsio_instance)
      else
        match logger_log wsio_instance with
        | Some f => log_bytes f (memcpy buf sz)
        | None => ret tt
        end ;;
        do '(r, i) <- add_pending_io wsio_instance buf sz on_send_complete
                                     callback_context ;
        if decide (r <> 0) then ret (736, Some i)
        else
          emit (Call_lws_callback_on_writable (wsi i)) ;;
          if decide (lws_callback_on_writable_reply < 0) then
            ret (744, Some i)
          else ret (0, Some i)
  | _, _ => ret (711, ws_io)
  end.

(** wsio.c, lines 758-774. *)
Definition wsio_dowork (ws_io : option WSIO_INSTANCE)
    (events : list lws_event) : M (option WSIO_INSTANCE) :=
  match ws_io with
  | None => ret None
  | Some wsio_instance =>
      if decide (io_state wsio_instance = IO_STATE_OPEN
                 \/ io_state wsio_instance = IO_STATE_OPENING) then
        emit (Call_lws_service (ws_context wsio_instance)) ;;
        do i <- lws_service events wsio_instance ;
        ret (Some i)
      else ret (Some wsio_instance)
  end.

(** ** Histories: what a caller and the engine do to one instance *)

Inductive api_call :=
| Do_open (on_io_open_complete on_bytes_received on_io_error : option fnptr)
    (callback_context : context)
    (lws_create_context_reply lws_client_connect_reply : option ptr)
| Do_close (on_io_close_complete : option fnptr) (callback_context : context)
| Do_send (buffer : option (list byte)) (sz : N)
    (on_send_complete : option fnptr) (callback_context : context)
    (lws_callback_on_writable_reply : Z)
| Do_dowork (events : list lws_event)
| Do_callback (e : lws_event).

Definition still (i : WSIO_INSTANCE) (o : option WSIO_INSTANCE)
  : WSIO_INSTANCE :=
  match o with Some i' => i' | None => i end.

(** One step on a live instance: the value the call returns (0 for the
    [void] ones) and the instance afterwards. *)
Definition step (c : api_call) (i : WSIO_INSTANCE) : M (Z * WSIO_INSTANCE) :=
  match c with
  | Do_open oc br er ctx r1 r2 =>
      do '(r, o) <- wsio_open (Some i) oc br er ctx r1 r2 ;
      ret (r, still i o)
  | Do_close cc ctx =>
      do '(r, o) <- wsio_close (Some i) cc ctx ;
      ret (r, still i o)
  | Do_send buf sz sc ctx wr =>
      do '(r, o) <- wsio_send (Some i) buf sz sc ctx wr ;
      ret (r, still i o)
  | Do_dowork evs =>
      do o <- wsio_dowork (Some i) evs ;
      ret (0, still i o)
  | Do_callback e =>
      on_ws_callback i (ev_reason e) (ev_in e) (ev_len e) (ev_replies e)
  end.

Fixpoint run (cs : list api_call) (i : WSIO_INSTANCE)
  : M (list Z * WSIO_INSTANCE) :=
  match cs with
  | [] => ret ([], i)
  | c :: rest =>
      do '(r, i') <- step c i ;
      do '(rs, i'') <- run rest i' ;
      ret (r :: rs, i'')
  end.

(** ** Observations on traces and histories *)

(** The send completions of a trace, in the order they were made. *)
Fixpoint send_completions (l : list call) : list (fnptr * context) :=
  match l with
  | [] => []
  | Call_on_send_complete f ctx _ :: rest => (f, ctx) :: send_completions rest
  | _ :: rest => send_completions rest
  end.

(** The completions a queue still owes: one per queued write that has a
    callback. *)
Fixpoint owed (items : list (LIST_ITEM_HANDLE (owned PENDING_SOCKET_IO)))
  : list (fnptr * context) :=
  match items with
  | [] => []
  | it :: rest =>
      match on_send_complete (val (val it)) with
      | Some f => (f, callback_context (val (val it))) :: owed rest
      | None => owed rest
      end
  end.

(** The sends of a history that [wsio_send] queued, given what each call
    returned: those answered 0 and those answered at line 744, after the
    write was queued.  [accepted_only] keeps the former alone. *)
Fixpoint queued_sends (accepted_only : bool) (cs : list api_call)
    (rs : list Z) : list (fnptr * context) :=
  match cs, rs with
  | Do_send _ _ (Some f) ctx _ :: cs', r :: rs' =>
      if decide (r = 0 \/ (accepted_only = false /\ r = 744))
      then (f, ctx) :: queued_sends accepted_only cs' rs'
      else queued_sends accepted_only cs' rs'
  | _ :: cs', _ :: rs' => queued_sends accepted_only cs' rs'
  | _, _ => []
  end.

Definition empty_world : world := World ∅ 0%nat [] [].

(** * Specifications *)

(** ** Views of an instance and of a world *)

(** The pending writes, head first. *)
Definition queue (i : WSIO_INSTANCE) := val (pending_io_list i).

(** What [wsio_open] registers. *)
Definition callbacks_of (i : WSIO_INSTANCE) :=
  (on_bytes_received i, on_io_open_complete i, on_io_error i,
   open_callback_context i).

(** The receive callback and the context it is called with. *)
Definition receiver (i : WSIO_INSTANCE) : option fnptr * context :=
  (on_bytes_received i, open_callback_context i).

(** A queued write that is not marked as partially sent. *)
Definition unsent (it : LIST_ITEM_HANDLE (owned PENDING_SOCKET_IO)) : Prop :=
  is_partially_sent (val (val it)) = false.

(** The send completions made so far. *)
Definition sent (w : world) := send_completions (log w).

(** Appending to the trace of a world. *)
Definition add_log (w : world) (l : list call) : world :=
  World (live w) (next w) (plan w) (log w ++ l).

(** [w] with the allocation outcomes [pl] to come. *)
Definition with_plan (w : world) (pl : list bool) : world :=
  World (live w) (next w) pl (log w).

(** The call a function pointer receives, when there is one. *)
Definition opt_call (f : option fnptr) (mk : fnptr -> call) : list call :=
  match f with Some g => [mk g] | None => [] end.

(** What [wsio_send] logs before it queues: one line per byte, when there is
    a logger. *)
Definition logged (i : WSIO_INSTANCE) (buf : list byte) (sz : N)
  : list call :=
  match logger_log i with
  | Some f => map (Call_LOG f) (memcpy buf sz)
  | None => []
  end.

(** The bytes that [lws_write] took, over a whole trace: of each call that
    answered [n >= 0], the first [n] bytes of the buffer it was given. *)
Fixpoint bytes_written (l : list call) : list byte :=
  match l with
  | [] => []
  | Call_lws_write _ buf _ n :: rest =>
      (if decide (0 <= n) then take (Z.to_nat n) buf else [])
      ++ bytes_written rest
  | _ :: rest => bytes_written rest
  end.

(** What a call adds to the completions the instance owes. *)
Definition newly_owed (c : api_call) (r : Z) : list (fnptr * context) :=
  queued_sends false [c] [r].

(** The receive callback and context that are registered after a history:
    those of the last [wsio_open] that got past the state test (every answer
    but the one of line 538). *)
Fixpoint registered (cs : list api_call) (rs : list Z)
    (cur : option fnptr * context) : option fnptr * context :=
  match cs, rs with
  | Do_open _ br _ ctx _ _ :: cs', r :: rs' =>
      registered cs' rs' (if decide (r = 538) then cur else (br, ctx))
  | _ :: cs', _ :: rs' => registered cs' rs' cur
  | _, _ => cur
  end.

(** ** Construction *)

(** Every live block was handed out before [next]. *)
Definition heap_ok (w : world) : Prop :=
  forall p, p ∈ live w -> (p < next w)%nat.

(** The configuration is NULL or lacks a required string. *)
Definition config_missing (c : option WSIO_CONFIG) : Prop :=
  match c with
  | None => True
  | Some c =>
      cfg_host c = None \/ cfg_protocol_name c = None
      \/ cfg_relative_path c = None
  end.

(** The allocations a complete construction makes: the instance, the list,
    three strings, the protocol table, and the trust anchor when there is
    one. *)
Definition allocations (c : option WSIO_CONFIG) : nat :=
  match c with
  | None => 0
  | Some c => match cfg_trusted_ca c with Some _ => 7 | None => 6 end
  end.

(** ** Postconditions *)

(** [post m w Q]: if [m] returns from world [w], its result and the world it
    leaves satisfy [Q]. *)
Definition post {A} (m : M A) (w : world) (Q : A -> world -> Prop) : Prop :=
  match m w with
  | Some (a, w') => Q a w'
  | None => True
  end.

(** What holds of every instance that calls and events reach from a created
    one: no queued write is marked partially sent, the state is NOT_OPEN,
    OPENING or OPEN, and the queue is empty unless the state is OPEN. *)
Definition Inv (i : WSIO_INSTANCE) : Prop :=
  Forall unsent (queue i) /\
  io_state i <> IO_STATE_ERROR /\
  io_state i <> IO_STATE_CLOSING /\
  (io_state i = IO_STATE_NOT_OPEN \/ io_state i = IO_STATE_OPENING ->
   queue i = []).

(** A ready-to-write event keeps the callbacks, moves completions from owed
    to made, does nothing on an empty queue, and keeps the state as long as
    no queued write is marked partially sent. *)
Definition writeable_post (i : WSIO_INSTANCE) (w : world)
    (i' : WSIO_INSTANCE) (w' : world) : Prop :=
  callbacks_of i' = callbacks_of i /\
  sent w' ++ owed (queue i') = sent w ++ owed (queue i) /\
  (queue i = [] -> i' = i) /\
  (Forall unsent (queue i) ->
   Forall unsent (queue i') /\ io_state i' = io_state i).

Definition callback_post (i : WSIO_INSTANCE) (w : world)
    (ri : Z * WSIO_INSTANCE) (w' : world) : Prop :=
  ri.1 = 0 /\
  callbacks_of ri.2 = callbacks_of i /\
  sent w' ++ owed (queue ri.2) = sent w ++ owed (queue i) /\
  (Inv i -> Inv ri.2).

Definition close_post (i : WSIO_INSTANCE) (w : world)
    (r : Z * option WSIO_INSTANCE) (w' : world) : Prop :=
  exists i', r.2 = Some i' /\
    callbacks_of i' = callbacks_of i /\
    sent w' ++ owed (queue i') = sent w ++ owed (queue i) /\
    (Inv i -> Inv i' /\ queue i' = []) /\
    (r.1 = 0 /\ io_state i <> IO_STATE_NOT_OPEN
             /\ io_state i' = IO_STATE_NOT_OPEN
             /\ (io_state i <> IO_STATE_OPENING -> queue i' = [])
     \/ r.1 = 637 /\ io_state i = IO_STATE_NOT_OPEN /\ i' = i
                  /\ log w' = log w).

Definition open_post (i : WSIO_INSTANCE) (br : option fnptr) (ctx : context)
    (w : world) (r : Z * option WSIO_INSTANCE) (w' : world) : Prop :=
  exists i', r.2 = Some i' /\
    queue i' = queue i /\ sent w' = sent w /\ (Inv i -> Inv i') /\
    receiver i' = (if decide (r.1 = 538) then receiver i else (br, ctx)).

Definition add_post (i : WSIO_INSTANCE) (cb : option fnptr) (ctx : context)
    (w : world) (r : Z * WSIO_INSTANCE) (w' : world) : Prop :=
  log w' = log w /\ callbacks_of r.2 = callbacks_of i /\
  io_state r.2 = io_state i /\
  (r.1 = 0 /\ (exists it, queue r.2 = queue i ++ [it] /\ unsent it /\
                 on_send_complete (val (val it)) = cb /\
                 callback_context (val (val it)) = ctx)
   \/ r.1 <> 0 /\ r.2 = i).

Definition send_post (i : WSIO_INSTANCE) (cb : option fnptr) (ctx : context)
    (w : world) (r : Z * option WSIO_INSTANCE) (w' : world) : Prop :=
  exists i', r.2 = Some i' /\
    callbacks_of i' = callbacks_of i /\ sent w' = sent w /\
    (Inv i -> Inv i') /\
    owed (queue i') = owed (queue i) ++
      match cb with
      | Some f => if decide (r.1 = 0 \/ r.1 = 744) then [(f, ctx)] else []
      | None => []
      end.

Definition step_post (c : api_call) (i : WSIO_INSTANCE) (w : world)
    (r : Z * WSIO_INSTANCE) (w' : world) : Prop :=
  (Inv i -> Inv r.2) /\
  sent w' ++ owed (queue r.2) = sent w ++ owed (queue i) ++ newly_owed c r.1 /\
  receiver r.2 = registered [c] [r.1] (receiver i).

Definition run_post (cs : list api_call) (i : WSIO_INSTANCE) (w : world)
    (r : list Z * WSIO_INSTANCE) (w' : world) : Prop :=
  length r.1 = length cs /\
  (Inv i -> Inv r.2) /\
  sent w' ++ owed (queue r.2) =
    sent w ++ owed (queue i) ++ queued_sends false cs r.1 /\
  receiver r.2 = registered cs r.1 (receiver i).

(** ** Concrete instances, worlds and histories *)

Definition demo_config : WSIO_CONFIG :=
  {| cfg_host := Some "example.org"%string; cfg_port := 443;
     cfg_protocol_name := Some "AMQPWSB10"%string;
     cfg_relative_path := Some "/ws"%string;
     cfg_use_ssl := true; cfg_trusted_ca := None |}.

(** The connection-established event. *)
Definition established : lws_event :=
  {| ev_reason := LWS_CALLBACK_CLIENT_ESTABLISHED; ev_in := None;
     ev_len := 0%N;
     ev_replies := {| lws_write_reply := 0; BIO_new_reply := true |} |}.

(** A ready-to-write event during which [lws_write] answers [n]. *)
Definition writeable (n : Z) : lws_event :=
  {| ev_reason := LWS_CALLBACK_CLIENT_WRITEABLE; ev_in := None;
     ev_len := 0%N;
     ev_replies := {| lws_write_reply := n; BIO_new_reply := true |} |}.

(** The instance that [wsio_create demo_config] builds in the empty world,
    and the world it leaves. *)
Definition fresh_instance : WSIO_INSTANCE :=
  {| self := 0%nat; on_bytes_received := None; on_io_open_complete := None;
     on_io_error := None; logger_log := None; open_callback_context := 0%nat;
     io_state := IO_STATE_NOT_OPEN;
     pending_io_list := Owned 1%nat [];
     ws_context := None; wsi := None; port := 443;
     host := Owned 2%nat "example.org"%string;
     relative_path := Owned 3%nat "/ws"%string;
     protocol_name := Owned 4%nat "AMQPWSB10"%string;
     trusted_ca := None;
     protocols := Owned 5%nat
       [ {| name := Some "AMQPWSB10"%string; callback := true;
            per_session_data_size := 0%N; rx_buffer_size := 0%N; id := 0;
            user := None |};
         {| name := None; callback := false;
            per_session_data_size := 0%N; rx_buffer_size := 0%N; id := 0;
            user := None |} ];
     use_ssl := true |}.

Definition fresh_world : world :=
  World (list_to_set [0; 1; 2; 3; 4; 5]%nat) 6%nat [] [].

(** The caller's functions: open-complete is 1, bytes-received 2, error 3;
    its context is 9.  libwebsockets hands out context 100 and connection
    101. *)
Definition open_call : api_call :=
  Do_open (Some 1%nat) (Some 2%nat) (Some 3%nat) 9%nat
          (Some 100%nat) (Some 101%nat).

(** The instance and the world after [open_call]. *)
Definition opening_instance : WSIO_INSTANCE :=
  set_wsi (set_io_state (set_ws_context
    (set_callbacks fresh_instance (Some 2%nat) (Some 1%nat) (Some 3%nat) 9%nat)
    (Some 100%nat)) IO_STATE_OPENING) (Some 101%nat).

Definition opening_world : world :=
  World (list_to_set [0; 1; 2; 3; 4; 5]%nat) 6%nat []
    [ Call_lws_create_context 0%nat (Some 100%nat);
      Call_lws_client_connect (Some 100%nat) "example.org" 443 true "/ws"
        (Some "AMQPWSB10"%string) (Some 101%nat) ].

(** The instance and the world once the connection is established. *)
Definition open_instance : WSIO_INSTANCE :=
  set_io_state opening_instance IO_STATE_OPEN.

Definition open_world : world :=
  World (list_to_set [0; 1; 2; 3; 4; 5]%nat) 6%nat []
    (log opening_world ++ [Call_on_io_open_complete 1%nat 9%nat IO_OPEN_OK]).

Definition six : list byte := [x01; x02; x03; x04; x05; x06].

(** The write of [six] with callback 7 and context 70. *)
Definition send_six : api_call :=
  Do_send (Some six) 6%N (Some 7%nat) 70%nat 0.

(** A history with an accepted send, a send whose notification request
    fails, a partial write, a complete write and a close. *)
Definition demo_history : list api_call :=
  [ open_call;
    Do_dowork [established];
    Do_send (Some [x01; x02; x03]) 3%N (Some 7%nat) 70%nat 0;
    Do_send (Some [x04]) 1%N (Some 8%nat) 80%nat (-1);
    Do_dowork [writeable 1];
    Do_dowork [writeable 3];
    Do_send (Some [x05; x06]) 2%N (Some 7%nat) 71%nat 0;
    Do_close None 0%nat ].

(** ** Single operations *)

(** The blocks a run of [n] successful allocations hands out from [w]. *)
Definition fresh_blocks (w : world) (n : nat) : gset ptr :=
  list_to_set (seq (next w) n).

(** No allocation among the next [n] fails. *)
Definition plan_allows (w : world) (n : nat) : Prop :=
  forall k, (k < n)%nat -> plan w !! k <> Some false.

(** The world after a successful allocation. *)
Definition alloc_ok (w : world) : world :=
  World ({[next w]} ∪ live w) (S (next w)) (tl (plan w)) (log w).

(** What [wsio_open] answers on a NOT_OPEN instance, given what
    libwebsockets returns. *)
Definition open_result (r1 r2 : option ptr) : Z :=
  match r1, r2 with
  | None, _ => 584
  | Some _, None => 606
  | Some _, Some _ => 0
  end.

(** The calls that cancel a queue: IO_SEND_CANCELLED to each write that has
    a callback, head first. *)
Definition cancellations
    (q : list (LIST_ITEM_HANDLE (owned PENDING_SOCKET_IO))) : list call :=
  flat_map (fun it =>
    opt_call (on_send_complete (val (val it)))
      (fun f => Call_on_send_complete f (callback_context (val (val it)))
                  IO_SEND_CANCELLED)) q.

(** The calls of a [wsio_close] on instance [i]: none when it is not open;
    otherwise the cancellation of the pending open or of every queued
    write, the destruction of the engine context, and the close-complete
    callback when there is one. *)
Definition close_calls (i : WSIO_INSTANCE) (cc : option fnptr)
    (ctx : context) : list call :=
  if decide (io_state i = IO_STATE_NOT_OPEN) then []
  else
    (if decide (io_state i = IO_STATE_OPENING) then
       opt_call (on_io_open_complete i) (fun f =>
         Call_on_io_open_complete f (open_callback_context i)
           IO_OPEN_CANCELLED)
     else cancellations (queue i))
    ++ [Call_lws_context_destroy (ws_context i)]
    ++ opt_call cc (fun f => Call_on_io_close_complete f ctx).

(** The calls of a writeable event whose write fails: [lws_write] when the
    framing buffer could be allocated, IO_SEND_ERROR to the write's
    callback, and a request for another writeable event when more writes
    are queued. *)
Definition failed_write_calls (i : WSIO_INSTANCE)
    (it : LIST_ITEM_HANDLE (owned PENDING_SOCKET_IO))
    (rest : list (LIST_ITEM_HANDLE (owned PENDING_SOCKET_IO)))
    (allocated : bool) (n : Z) : list call :=
  (if allocated
   then [Call_lws_write (wsi i)
           (memcpy (val (bytes (val (val it)))) (size (val (val it))))
           (size (val (val it))) n]
   else [])
  ++ opt_call (on_send_complete (val (val it)))
       (fun f => Call_on_send_complete f (callback_context (val (val it)))
                   IO_SEND_ERROR)
  ++ match rest with
     | [] => []
     | _ :: _ => [Call_lws_callback_on_writable (wsi i)]
     end.

(** ** Traces of calls *)

(** [emits m w Q]: if [m] returns from [w], the calls it has appended to the
    trace, with its result, satisfy [Q]. *)
Definition emits {A} (m : M A) (w : world) (Q : A -> list call -> Prop)
  : Prop :=
  post m w (fun a w' => exists l, log w' = log w ++ l /\ Q a l).

(** ** Open completions and engine sessions *)

(** The open completions of a trace, in the order they were made. *)
Fixpoint open_completions (l : list call) : list (fnptr * context) :=
  match l with
  | [] => []
  | Call_on_io_open_complete f ctx _ :: rest =>
      (f, ctx) :: open_completions rest
  | _ :: rest => open_completions rest
  end.

(** The open completion an instance still owes: one while it is OPENING and
    has a callback. *)
Definition pending_open (i : WSIO_INSTANCE) : list (fnptr * context) :=
  match io_state i, on_io_open_complete i with
  | IO_STATE_OPENING, Some f => [(f, open_callback_context i)]
  | _, _ => []
  end.

(** What libwebsockets holds for the module: nothing, or a context with the
    connection made in it (none before [lws_client_connect] has
    answered). *)
Definition session : Type := option (ptr * option ptr).

(** One call as libwebsockets sees it: [None] when the call creates a second
    context, or connects, services, writes to or destroys something that is
    not the live context or its connection. *)
Definition engine_step (s : session) (c : call) : option session :=
  match c with
  | Call_lws_create_context _ r =>
      match s, r with
      | None, Some x => Some (Some (x, None))
      | None, None => Some None
      | Some _, _ => None
      end
  | Call_lws_client_connect ctx _ _ _ _ _ r =>
      match s with
      | Some (x, None) => if decide (ctx = Some x) then Some (Some (x, r)) else None
      | _ => None
      end
  | Call_lws_context_destroy ctx =>
      match s with
      | Some (x, _) => if decide (ctx = Some x) then Some None else None
      | None => None
      end
  | Call_lws_service ctx =>
      match s with
      | Some (x, Some _) => if decide (ctx = Some x) then Some s else None
      | _ => None
      end
  | Call_lws_write y _ _ _ | Call_lws_callback_on_writable y =>
      match s with
      | Some (_, Some z) => if decide (y = Some z) then Some s else None
      | _ => None
      end
  | _ => Some s
  end.

(** A trace as libwebsockets sees it, from session [s]. *)
Fixpoint engine_run (s : session) (l : list call) : option session :=
  match l with
  | [] => Some s
  | c :: rest =>
      match engine_step s c with
      | Some s' => engine_run s' rest
      | None => None
      end
  end.

(** ** The heap *)

(** The blocks of one queued write: its copy of the bytes, its
    PENDING_SOCKET_IO and its list node. *)
Definition item_blocks (it : LIST_ITEM_HANDLE (owned PENDING_SOCKET_IO))
  : list ptr :=
  [addr (bytes (val (val it))); addr (val it); addr it].

(** The blocks that [wsio_create] allocates for an instance. *)
Definition own_blocks (i : WSIO_INSTANCE) : list ptr :=
  [self i; addr (pending_io_list i); addr (host i); addr (relative_path i);
   addr (protocol_name i); addr (protocols i)]
  ++ match trusted_ca i with Some ca => [addr ca] | None => [] end.

(** Every block that an instance points to. *)
Definition blocks (i : WSIO_INSTANCE) : list ptr :=
  own_blocks i ++ flat_map item_blocks (queue i).

(** The heap of [w] is the blocks [bl], each of them once, next to the
    blocks [L] of somebody else. *)
Definition owns (bl : list ptr) (w : world) (L : gset ptr) : Prop :=
  heap_ok w /\ NoDup bl /\ (forall p, p ∈ bl -> p ∉ L) /\
  live w = list_to_set bl ∪ L.

(** [holds m bl Q]: run from a heap made of the blocks [bl] and a frame,
    [m] frees blocks of [bl] only, and leaves a heap made of some blocks
    [bl'] with [Q a bl'] and the same frame. *)
Definition holds {A} (m : M A) (bl : list ptr) (Q : A -> list ptr -> Prop)
  : Prop :=
  forall w L, owns bl w L ->
    post m w (fun a w' => exists bl', owns bl' w' L /\ Q a bl').

(** ** The configuration *)

(** What an instance was configured with: its own address, the logger, and
    the host, port, TLS flag, path, protocol name and trust anchor that
    [wsio_create] copied. *)
Definition settings (i : WSIO_INSTANCE) :=
  (self i, logger_log i, val (host i), port i, use_ssl i,
   val (relative_path i),
   match head (val (protocols i)) with Some p => name p | None => None end,
   val <$> trusted_ca i).

(** A call that uses what was configured uses it as it was configured. *)
Definition as_configured (i : WSIO_INSTANCE) (c : call) : Prop :=
  match c with
  | Call_LOG f _ => logger_log i = Some f
  | Call_lws_create_context u _ => u = self i
  | Call_lws_client_connect _ h p s rp pn _ =>
      h = val (host i) /\ p = port i /\ s = use_ssl i /\
      rp = val (relative_path i) /\
      pn = match head (val (protocols i)) with
           | Some p => name p
           | None => None
           end
  | Call_X509_load pem => val <$> trusted_ca i = Some pem
  | _ => True
  end.

(** The same, in the words of the configuration. *)
Definition as_given (c : WSIO_CONFIG) (lg : option fnptr) (x : call)
  : Prop :=
  match x with
  | Call_LOG f _ => lg = Some f
  | Call_lws_client_connect _ h p s rp pn _ =>
      cfg_host c = Some h /\ p = cfg_port c /\ s = cfg_use_ssl c /\
      cfg_relative_path c = Some rp /\ pn = cfg_protocol_name c
  | Call_X509_load pem => cfg_trusted_ca c = Some pem
  | _ => True
  end.

(** Instance [i] holds the logger [lg] and what configuration [c] asks
    for. *)
Definition configured_with (c : WSIO_CONFIG) (lg : option fnptr)
    (i : WSIO_INSTANCE) : Prop :=
  logger_log i = lg /\
  cfg_host c = Some (val (host i)) /\
  port i = cfg_port c /\
  use_ssl i = cfg_use_ssl c /\
  cfg_relative_path c = Some (val (relative_path i)) /\
  match head (val (protocols i)) with Some p => name p | None => None end
    = cfg_protocol_name c /\
  val <$> trusted_ca i = cfg_trusted_ca c.

(** From [i] to [i'] the settings are kept, and the calls [l] use them. *)
Definition configured (i : WSIO_INSTANCE) (i' : WSIO_INSTANCE)
    (l : list call) : Prop :=
  settings i' = settings i /\ Forall (as_configured i) l.

(** ** The state machine *)

(** The state after an event of libwebsockets: the handshake events move an
    OPENING instance, and nothing else moves. *)
Definition event_state (s : IO_STATE) (reason : lws_callback_reasons)
  : IO_STATE :=
  match reason, s with
  | LWS_CALLBACK_CLIENT_ESTABLISHED, IO_STATE_OPENING => IO_STATE_OPEN
  | LWS_CALLBACK_CLIENT_CONNECTION_ERROR, IO_STATE_OPENING =>
      IO_STATE_NOT_OPEN
  | _, _ => s
  end.

(** The state after a call that answered [r]. *)
Definition next_state (s : IO_STATE) (c : api_call) (r : Z) : IO_STATE :=
  match c with
  | Do_open _ _ _ _ _ _ => if decide (r = 0) then IO_STATE_OPENING else s
  | Do_close _ _ => if decide (r = 0) then IO_STATE_NOT_OPEN else s
  | Do_send _ _ _ _ _ => s
  | Do_dowork evs =>
      if decide (s = IO_STATE_OPEN \/ s = IO_STATE_OPENING)
      then foldl event_state s (ev_reason <$> evs)
      else s
  | Do_callback e => event_state s (ev_reason e)
  end.

(** The answers a call can give in state [s]: [wsio_open] succeeds, or fails
    in the engine, only when NOT_OPEN and is refused at line 538 otherwise;
    [wsio_close] is refused at line 637 when NOT_OPEN and succeeds
    otherwise; [wsio_send] is refused at line 711 or 720 unless OPEN, and
    when OPEN is refused at line 711, fails at line 736 or 744, or
    succeeds. *)
Definition answer_ok (s : IO_STATE) (c : api_call) (r : Z) : Prop :=
  match c with
  | Do_open _ _ _ _ r1 r2 =>
      if decide (s = IO_STATE_NOT_OPEN) then r = open_result r1 r2
      else r = 538
  | Do_close _ _ =>
      if decide (s = IO_STATE_NOT_OPEN) then r = 637 else r = 0
  | Do_send _ _ _ _ _ =>
      if decide (s = IO_STATE_OPEN)
      then r = 0 \/ r = 711 \/ r = 736 \/ r = 744
      else r = 711 \/ r = 720
  | Do_dowork _ | Do_callback _ => r = 0
  end.

(** The answers [rs] to the calls [cs] are those of the state machine
    started in [s]. *)
Fixpoint follows (s : IO_STATE) (cs : list api_call) (rs : list Z) : Prop :=
  match cs, rs with
  | [], [] => True
  | c :: cs', r :: rs' => answer_ok s c r /\ follows (next_state s c r) cs' rs'
  | _, _ => False
  end.

(** The state the machine reaches from [s]. *)
Fixpoint final_state (s : IO_STATE) (cs : list api_call) (rs : list Z)
  : IO_STATE :=
  match cs, rs with
  | c :: cs', r :: rs' => final_state (next_state s c r) cs' rs'
  | _, _ => s
  end.

(** ** Callbacks inside lws_client_connect *)

(** The state in which the callbacks [during], made on an OPENING instance,
    leave it. *)
Definition state_after (during : list lws_event) : IO_STATE :=
  foldl event_state IO_STATE_OPENING (ev_reason <$> during).

(** The open completion that an open with callback [oc] and context [ctx]
    is owed. *)
Definition open_owed (oc : option fnptr) (ctx : context)
  : list (fnptr * context) :=
  match oc with
  | Some f => [(f, ctx)]
  | None => []
  end.

(** The calls of a [wsio_open] on instance [i] that gets context [c], is
    told of the connection error before [lws_client_connect] returns, and
    gets NULL from it. *)
Definition failed_connect_calls (i : WSIO_INSTANCE) (oc : option fnptr)
    (ctx : context) (c : ptr) : list call :=
  [ Call_lws_create_context (self i) (Some c);
    Call_lws_client_connect (Some c) (val (host i)) (port i) (use_ssl i)
      (val (relative_path i))
      (match head (val (protocols i)) with
       | Some p => name p
       | None => None
       end) None ]
  ++ opt_call oc (fun f => Call_on_io_open_complete f ctx IO_OPEN_ERROR)
  ++ [ Call_lws_context_destroy (Some c);
       Call_lws_context_destroy (Some c) ].

(** The connection-error event. *)
Definition connection_error : lws_event :=
  {| ev_reason := LWS_CALLBACK_CLIENT_CONNECTION_ERROR; ev_in := None;
     ev_len := 0%N;
     ev_replies := {| lws_write_reply := 0; BIO_new_reply := true |} |}.

(** ** More instances and histories *)

(** The history up to a queued write that has not been written yet. *)
Definition queued_history : list api_call :=
  [open_call; Do_dowork [established]; send_six].

(** The write that [send_six] queues on [open_instance], and the instance
    and the world it leaves. *)
Definition queued_six : LIST_ITEM_HANDLE (owned PENDING_SOCKET_IO) :=
  Owned 8%nat (Owned 6%nat
    {| bytes := Owned 7%nat six; size := 6%N;
       on_send_complete := Some 7%nat; callback_context := 70%nat;
       io_pending_io_list := 1%nat; is_partially_sent := false |}).

Definition sending_instance : WSIO_INSTANCE :=
  set_pending_io_list open_instance (Owned 1%nat [queued_six]).

Definition sending_world : world :=
  World (list_to_set [0; 1; 2; 3; 4; 5; 6; 7; 8]%nat) 9%nat []
    (log open_world ++ [Call_lws_callback_on_writable (Some 101%nat)]).

(** * Verification *)

(** ** Traces *)

Lemma send_completions_app (l1 l2 : list call) :
  send_completions (l1 ++ l2) = send_completions l1 ++ send_completions l2.
Proof.
  induction l1 as [|c l1 IH]; [reflexivity|].
  destruct c; simpl; rewrite IH; reflexivity.
Qed.

Lemma owed_app (q1 q2 : list (LIST_ITEM_HANDLE (owned PENDING_SOCKET_IO))) :
  owed (q1 ++ q2) = owed q1 ++ owed q2.
Proof.
  induction q1 as [|it q1 IH]; [reflexivity|].
  simpl. destruct (on_send_complete (val (val it))); simpl; rewrite IH;
    reflexivity.
Qed.

(** ** A program logic for [M] *)

Section Post.
Context {A B : Type}.
Implicit Types (w : world).

Lemma post_elim (m : M A) w Q a w' :
  post m w Q -> m w = Some (a, w') -> Q a w'.
Proof. unfold post. intros H E. rewrite E in H. exact H. Qed.

Lemma post_mono (m : M A) w (Q Q' : A -> world -> Prop) :
  post m w Q -> (forall a w', Q a w' -> Q' a w') -> post m w Q'.
Proof. unfold post. destruct (m w) as [[a w']|]; auto. Qed.

Lemma post_ret (a : A) w (Q : A -> world -> Prop) : Q a w -> post (ret a) w Q.
Proof. intros H. exact H. Qed.

Lemma post_bind (m : M A) (k : A -> M B) w (Q : B -> world -> Prop) :
  post m w (fun a w' => post (k a) w' Q) -> post (bind m k) w Q.
Proof. unfold post, bind. destruct (m w) as [[a w']|]; auto. Qed.

Lemma post_undefined w (Q : A -> world -> Prop) : post undefined w Q.
Proof. exact I. Qed.
End Post.

Lemma post_emit (c : call) w (Q : unit -> world -> Prop) :
  (forall w', log w' = log w ++ [c] -> Q tt w') -> post (emit c) w Q.
Proof. intros H. apply H. reflexivity. Qed.

Lemma post_malloc w (Q : option ptr -> world -> Prop) :
  (forall p w', log w' = log w -> Q p w') -> post amqpalloc_malloc w Q.
Proof.
  intros H. unfold post, amqpalloc_malloc.
  destruct (hd true (plan w)); apply H; reflexivity.
Qed.

Lemma post_free (p : option ptr) w (Q : unit -> world -> Prop) :
  (forall w', log w' = log w -> Q tt w') -> post (amqpalloc_free p) w Q.
Proof.
  intros H. unfold post, amqpalloc_free. destruct p; apply H; reflexivity.
Qed.

(** One step of a computation: the goal becomes the postcondition of what
    is left to run. *)
Ltac wp_step :=
  lazymatch goal with
  | |- post (bind _ _) _ _ => apply post_bind
  | |- post (ret _) _ _ => apply post_ret; cbv beta
  | |- post (emit _) _ _ => apply post_emit; intros ? ?
  | |- post amqpalloc_malloc _ _ => apply post_malloc; intros ? ? ?
  | |- post (amqpalloc_free _) _ _ => apply post_free; intros ? ?
  | |- post undefined _ _ => apply post_undefined
  | |- post (let _ := _ in _) _ _ => cbv zeta
  end.

Ltac wp_case :=
  lazymatch goal with
  | |- post (match ?x with _ => _ end) _ _ => destruct x eqn:?
  end.

Ltac wp := repeat wp_step.
Ltac wp_all := repeat first [wp_step | wp_case].

Tactic Notation "wp_apply" constr(lem) :=
  eapply post_mono; [apply lem | cbv beta].

(** Rewrite the trace of every intermediate world down to the first one. *)
Ltac trace :=
  repeat match goal with
         | H : log _ = _ |- _ => rewrite H in *; clear H
         end.

(** ** The static helpers *)

Lemma post_indicate_error i w (Q : unit -> world -> Prop) :
  (forall w', sent w' = sent w -> Q tt w') -> post (indicate_error i) w Q.
Proof.
  intros H. unfold indicate_error.
  wp_all; apply H; unfold sent; trace;
    rewrite ?send_completions_app, ?app_nil_r; done.
Qed.

Lemma post_list_remove_head {V} la (it : LIST_ITEM_HANDLE V) rest w
    (Q : Z * LIST_HANDLE V -> world -> Prop) :
  (forall w', log w' = log w -> Q (0, Owned la rest) w') ->
  post (list_remove (Owned la (it :: rest)) it) w Q.
Proof.
  intros H. unfold list_remove. simpl. rewrite Nat.eqb_refl.
  wp. apply H. trace. done.
Qed.

Lemma post_indicate_send_complete p r w (Q : unit -> world -> Prop) :
  (forall w', sent w' = sent w ++
       match on_send_complete p with
       | Some f => [(f, callback_context p)]
       | None => []
       end -> Q tt w') ->
  post (indicate_send_complete p r) w Q.
Proof.
  intros H. unfold indicate_send_complete.
  wp_all; apply H; unfold sent; trace;
    rewrite ?send_completions_app, ?app_nil_r; done.
Qed.

Lemma post_after_list_remove_ok i w (Q : WSIO_INSTANCE -> world -> Prop) :
  Q i w -> post (after_list_remove i 0) w Q.
Proof. intros H. unfold after_list_remove. wp_all. - done. - exact H. Qed.

Lemma post_remove_pending_io_head i la it rest p w
    (Q : WSIO_INSTANCE -> world -> Prop) :
  pending_io_list i = Owned la (it :: rest) ->
  (forall w', log w' = log w -> Q (set_pending_io_list i (Owned la rest)) w') ->
  post (remove_pending_io i it p) w Q.
Proof.
  intros E H. unfold remove_pending_io. rewrite E. wp.
  apply post_list_remove_head. intros w2 E2.
  apply post_after_list_remove_ok. apply H. trace. done.
Qed.

Lemma post_fail_pending_io_head i la it rest w
    (Q : WSIO_INSTANCE -> world -> Prop) :
  pending_io_list i = Owned la (it :: rest) ->
  (forall w', sent w' = sent w ++ owed [it] ->
     Q (set_pending_io_list
          (if is_partially_sent (val (val it))
           then set_io_state i IO_STATE_ERROR else i)
          (Owned la rest)) w') ->
  post (fail_pending_io i it (val it)) w Q.
Proof.
  intros E H. unfold fail_pending_io. wp.
  apply post_indicate_send_complete. intros w1 E1. wp. wp_case; wp.
  - apply post_indicate_error. intros w2 E2. wp.
    eapply post_remove_pending_io_head; [destruct i; simpl in *; exact E|].
    intros w3 E3. apply H. unfold sent in *. trace. simpl. rewrite E2, E1.
    destruct (on_send_complete _); done.
  - eapply post_remove_pending_io_head; [exact E|].
    intros w3 E3. apply H. unfold sent in *. trace. simpl. rewrite E1.
    destruct (on_send_complete _); done.
Qed.

(** ** The dispatcher *)

Lemma post_rerequest (a : WSIO_INSTANCE) w
    (Q : WSIO_INSTANCE -> world -> Prop) :
  (forall w', sent w' = sent w -> Q a w') ->
  post (match list_get_head_item (pending_io_list a) with
        | Some _ => emit (Call_lws_callback_on_writable (wsi a)) ;; ret a
        | None => ret a
        end) w Q.
Proof.
  intros H. wp_all; apply H; unfold sent; trace;
    rewrite ?send_completions_app, ?app_nil_r; done.
Qed.

Lemma writeable_post_removed i la it rest w w' :
  pending_io_list i = Owned la (it :: rest) ->
  sent w' = sent w ++ owed [it] ->
  writeable_post i w
    (set_pending_io_list
       (if is_partially_sent (val (val it))
        then set_io_state i IO_STATE_ERROR else i) (Owned la rest)) w'.
Proof.
  intros E Hs. unfold writeable_post, queue, callbacks_of. rewrite E, Hs.
  split_and!.
  - destruct (is_partially_sent _); reflexivity.
  - rewrite <- app_assoc, <- owed_app. destruct (is_partially_sent _); reflexivity.
  - discriminate.
  - intros Hf. apply Forall_cons in Hf as [Hit Hf]. red in Hit. rewrite Hit.
    destruct (is_partially_sent _); simpl; auto.
Qed.

Lemma post_on_writeable i n w :
  post (on_writeable i n) w (writeable_post i w).
Proof.
  unfold on_writeable, list_item_get_value.
  destruct (pending_io_list i) as [la [|it rest]] eqn:E; simpl.
  { wp. unfold writeable_post, queue. rewrite E. simpl. done. }
  wp. wp_case; wp.
  - (* the framing buffer is allocated *)
    wp_case; [|wp_case]; wp.
    + (* lws_write failed *)
      eapply post_fail_pending_io_head; [exact E|]. intros w3 E3. wp.
      apply post_rerequest. intros w5 E5.
      apply (writeable_post_removed _ _ _ _ _ _ E). unfold sent in *. trace.
      rewrite E5, E3, send_completions_app, app_nil_r. reflexivity.
    + (* a partial write *)
      apply post_rerequest. intros w5 E5. rewrite Nat.eqb_refl.
      unfold writeable_post, queue, callbacks_of, sent in *. rewrite E.
      trace. rewrite E5, send_completions_app, app_nil_r. simpl.
      split_and!; try done.
      intros Hf. apply Forall_cons in Hf as [Hit Hf].
      split; [|reflexivity]. apply Forall_cons. split; [exact Hit|exact Hf].
    + (* the whole write went out *)
      apply post_indicate_send_complete. intros w3 E3. wp.
      apply post_list_remove_head. intros w6 E6.
      apply post_after_list_remove_ok. wp.
      apply post_rerequest. intros w8 E8.
      unfold writeable_post, queue, callbacks_of, sent in *. rewrite E.
      trace. rewrite E8, E3, send_completions_app, app_nil_r. simpl.
      split_and!; try done.
      * rewrite <- app_assoc. destruct (on_send_complete _); reflexivity.
      * intros Hf. apply Forall_cons in Hf as [Hit Hf]. done.
  - (* the framing buffer cannot be allocated *)
    eapply post_fail_pending_io_head; [exact E|]. intros w3 E3.
    apply post_rerequest. intros w5 E5.
    apply (writeable_post_removed _ _ _ _ _ _ E). unfold sent in *. trace.
    rewrite E5, E3. reflexivity.
Qed.

Lemma post_indicate_open_complete i r w (Q : unit -> world -> Prop) :
  (forall w', sent w' = sent w -> Q tt w') ->
  post (indicate_open_complete i r) w Q.
Proof.
  intros H. unfold indicate_open_complete.
  wp_all; apply H; unfold sent; trace;
    rewrite ?send_completions_app, ?app_nil_r; done.
Qed.

Lemma post_on_ws_callback i reason in_ len e w :
  post (on_ws_callback i reason in_ len e) w (callback_post i w).
Proof.
  unfold on_ws_callback, callback_post.
  destruct reason.
  - (* established *)
    destruct (io_state i) eqn:Es; wp;
      first [ apply post_indicate_open_complete | apply post_indicate_error ];
      intros w1 E1; wp; simpl; rewrite ?E1; split_and!; try done.
    unfold Inv, queue. destruct i; simpl in *. subst.
    intros (Hu & _ & _ & Hq). split_and!; try done.
    intros [|]; discriminate.
  - (* connection error *)
    destruct (io_state i) eqn:Es; wp;
      first [ apply post_indicate_open_complete | apply post_indicate_error ];
      intros w1 E1; wp; simpl; rewrite ?E1; split_and!; try done.
    + unfold sent in *. trace. rewrite send_completions_app, E1, app_nil_r.
      destruct i; reflexivity.
    + unfold Inv, queue. destruct i; simpl in *. subst.
      intros (Hu & _ & _ & Hq). split_and!; try done. intros _. auto.
  - (* writeable *)
    wp. wp_apply post_on_writeable. intros i' w' (Hc & Ht & Hq & Hu). wp.
    simpl. split_and!; try done.
    intros (Hf & He & Hcl & Hempty). destruct (Hu Hf) as [Hf' Hs].
    unfold Inv. rewrite Hs. split_and!; try done.
    intros Hst. specialize (Hempty Hst). rewrite (Hq Hempty). exact Hempty.
  - (* receive *)
    wp_case; wp. simpl. unfold sent. trace.
    rewrite send_completions_app, app_nil_r. done.
  - (* extra verification certificates *)
    repeat wp_case; wp; simpl; unfold sent; trace;
      rewrite ?send_completions_app, ?app_nil_r; done.
  - wp. done.
Qed.

(** ** wsio_close *)

Lemma post_cancel_pending_ios fuel : forall i w,
  post (cancel_pending_ios fuel i) w (fun i' w' =>
    callbacks_of i' = callbacks_of i /\ io_state i' = io_state i /\
    ws_context i' = ws_context i /\
    queue i' = [] /\ sent w' = sent w ++ owed (queue i)).
Proof.
  induction fuel as [|fuel IH]; intros i w; simpl;
    unfold list_get_head_item, list_item_get_value, queue in *;
    destruct (pending_io_list i) as [la [|it rest]] eqn:E; simpl; wp;
    rewrite ?E, ?app_nil_r; try done.
  apply post_indicate_send_complete. intros w1 E1. wp.
  apply post_list_remove_head. intros w4 E4.
  wp_apply IH. intros i5 w5 (Hc & Hs & Hx & Hq & Ht).
  split_and!; try done.
  rewrite Ht. unfold sent in *. trace. rewrite E1, <- app_assoc. simpl.
  destruct (on_send_complete _); reflexivity.
Qed.

Lemma cancel_pending_ios_drains fuel : forall i w,
  (length (queue i) <= fuel)%nat ->
  exists i' w', cancel_pending_ios fuel i w = Some (i', w').
Proof.
  induction fuel as [|fuel IH]; intros i w Hlen; simpl;
    unfold list_get_head_item, list_item_get_value, queue in *;
    destruct (pending_io_list i) as [la [|it rest]] eqn:E; simpl in *;
    try (eexists _, _; reflexivity); try lia.
  unfold list_remove, indicate_send_complete, bind, ret, emit,
    amqpalloc_free. simpl. rewrite Nat.eqb_refl.
  destruct (on_send_complete _); simpl; apply IH; simpl; lia.
Qed.

Lemma post_close_complete (cc : option fnptr) ctx w
    (Q : unit -> world -> Prop) :
  (forall w', sent w' = sent w -> Q tt w') ->
  post (match cc with
        | Some f => emit (Call_on_io_close_complete f ctx)
        | None => ret tt
        end) w Q.
Proof.
  intros H. wp_all; apply H; unfold sent; trace;
    rewrite ?send_completions_app, ?app_nil_r; done.
Qed.

Lemma post_wsio_close i cc ctx w :
  post (wsio_close (Some i) cc ctx) w (close_post i w).
Proof.
  unfold wsio_close, close_post. wp_case; wp.
  { exists i. simpl. split_and!; try done.
    - intros Hi. split; [done|]. apply Hi. auto.
    - right. done. }
  wp_case; wp.
  - (* an open is pending *)
    apply post_indicate_open_complete. intros w1 E1. wp.
    apply post_close_complete. intros w3 E3. wp.
    exists (set_io_state i IO_STATE_NOT_OPEN).
    unfold Inv, queue, callbacks_of, sent in *. simpl. trace.
    rewrite E3, send_completions_app, E1, app_nil_r.
    split_and!; try done.
    + intros (Hu & _ & _ & Hq). rewrite Hq by auto. done.
    + left. done.
  - (* drain the queue *)
    wp_apply post_cancel_pending_ios. intros i1 w1 (Hc & Hs & Hx & Hq & Ht).
    wp. apply post_close_complete. intros w3 E3. wp.
    exists (set_io_state i1 IO_STATE_NOT_OPEN).
    unfold Inv, queue, callbacks_of, sent in *. simpl. trace.
    rewrite E3, send_completions_app, Ht, Hq, !app_nil_r.
    split_and!; try done. left. done.
Qed.

Lemma wsio_close_returns i cc ctx w :
  exists r i' w', wsio_close (Some i) cc ctx w = Some (r, Some i', w').
Proof.
  unfold wsio_close. case_decide; [eexists _, _, _; reflexivity|].
  case_decide.
  - unfold indicate_open_complete, bind, ret, emit.
    destruct (on_io_open_complete i), cc; eexists _, _, _; reflexivity.
  - destruct (cancel_pending_ios_drains (length (queue i)) i w)
      as (i1 & w1 & E1); [lia|].
    unfold bind at 1 2. unfold queue in E1. rewrite E1.
    unfold bind, ret, emit. destruct cc; eexists _, _, _; reflexivity.
Qed.

(** ** wsio_open *)

Lemma post_wsio_open i oc br er ctx r1 r2 w :
  post (wsio_open (Some i) oc br er ctx r1 r2) w (open_post i br ctx w).
Proof.
  unfold wsio_open, wsio_open_reentrant, open_post. cbn [lws_service].
  wp_case; wp.
  { exists i. simpl. done. }
  assert (io_state i = IO_STATE_NOT_OPEN) as Es.
  { destruct (io_state i); done. }
  wp_all; eexists; (split; [reflexivity|]);
    unfold Inv, queue, sent in *; simpl; trace;
    rewrite ?send_completions_app, ?app_nil_r; simpl;
    (split_and!; try done);
    intros (Hu & _ & _ & Hq); rewrite Hq by auto; done.
Qed.

(** ** wsio_send *)

Lemma post_log_bytes f bs : forall w (Q : unit -> world -> Prop),
  (forall w', sent w' = sent w -> Q tt w') -> post (log_bytes f bs) w Q.
Proof.
  induction bs as [|b bs IH]; intros w Q H; simpl; wp; [auto|].
  apply IH. intros w2 E2. apply H. rewrite E2. unfold sent. trace.
  rewrite send_completions_app, app_nil_r. reflexivity.
Qed.

Lemma post_add_pending_io i buf sz cb ctx w :
  post (add_pending_io i buf sz cb ctx) w (add_post i cb ctx w).
Proof.
  unfold add_pending_io, add_post, list_add.
  wp. wp_case; wp; [wp_case; wp; [wp_case; wp|]|];
    simpl; trace; split_and!; try done; try (right; done).
  left. split; [done|]. eexists. unfold queue. simpl.
  split; [reflexivity|]. done.
Qed.

Lemma post_wsio_send i buffer sz cb ctx reply w :
  post (wsio_send (Some i) buffer sz cb ctx reply) w (send_post i cb ctx w).
Proof.
  unfold wsio_send, send_post.
  assert (forall w', sent w' = sent w ->
    exists i', Some i = Some i' /\ callbacks_of i' = callbacks_of i /\
      sent w' = sent w /\ (Inv i -> Inv i') /\
      owed (queue i') = owed (queue i) ++ []) as Hsame.
  { intros w' E. exists i. rewrite app_nil_r. done. }
  destruct buffer as [buf|]; wp; simpl.
  2:{ destruct cb; simpl; auto. }
  wp_case; wp; simpl.
  { destruct cb; simpl; auto. }
  wp_case; wp; simpl.
  { destruct cb; simpl; auto. }
  assert (io_state i = IO_STATE_OPEN) as Es.
  { destruct (io_state i); done. }
  assert (post (match logger_log i with
                | Some f => log_bytes f (memcpy buf sz)
                | None => ret tt
                end) w (fun _ w' => sent w' = sent w)) as Hlog.
  { wp_case; wp; [|done]. apply post_log_bytes. auto. }
  eapply post_mono; [exact Hlog|]. cbv beta. intros _ w1 E1. wp.
  wp_apply post_add_pending_io.
  intros [r i1] w2 (E2 & Hc & Hs & Hr). simpl in *.
  destruct Hr as [(-> & it & Hq & Hu & Hcb & Hctx)|[Hr ->]].
  - (* queued *)
    wp_case; [done|]. wp. wp_case; wp; exists i1; simpl;
      unfold sent in *; trace; rewrite send_completions_app, app_nil_r;
      (split_and!; try done).
    all: first
      [ rewrite Hq, owed_app; simpl; rewrite Hcb, Hctx;
        destruct cb; reflexivity
      | unfold Inv; rewrite Hq, Hs, Es; intros (Hf & _);
        split_and!; try done; [|intros [|]; discriminate];
        apply Forall_app; split; [done|]; apply Forall_cons; done ].
  - (* not queued *)
    wp_case; [|done]. wp. exists i. simpl. unfold sent in *. trace.
    split_and!; try done.
    destruct cb; simpl; rewrite app_nil_r; reflexivity.
Qed.

(** ** The pump *)

Lemma post_lws_service events : forall i w,
  post (lws_service events i) w (fun i' w' =>
    callbacks_of i' = callbacks_of i /\
    sent w' ++ owed (queue i') = sent w ++ owed (queue i) /\
    (Inv i -> Inv i')).
Proof.
  induction events as [|e events IH]; intros i w; simpl; wp; [done|].
  wp_apply post_on_ws_callback. intros [r i1] w1 (_ & Hc & Ht & Hi).
  simpl in *. wp_apply IH. intros i2 w2 (Hc2 & Ht2 & Hi2).
  split_and!; [congruence|congruence|auto].
Qed.

Lemma post_wsio_dowork i events w :
  post (wsio_dowork (Some i) events) w (fun o w' =>
    exists i', o = Some i' /\
      callbacks_of i' = callbacks_of i /\
      sent w' ++ owed (queue i') = sent w ++ owed (queue i) /\
      (Inv i -> Inv i')).
Proof.
  unfold wsio_dowork. wp_case; wp; [|exists i; done].
  wp_apply post_lws_service. intros i1 w1 (Hc & Ht & Hi). wp.
  exists i1. split_and!; try done. rewrite Ht. unfold sent. trace.
  rewrite send_completions_app, app_nil_r. reflexivity.
Qed.

(** ** Histories *)

Lemma receiver_callbacks i i' :
  callbacks_of i' = callbacks_of i -> receiver i' = receiver i.
Proof. unfold callbacks_of, receiver. congruence. Qed.

Lemma post_step c i w : post (step c i) w (step_post c i w).
Proof.
  unfold step, step_post, newly_owed.
  destruct c as [oc br er ctx r1 r2|cc ctx|buf sz cb ctx wr|evs|e]; simpl; wp.
  - wp_apply post_wsio_open. intros [r o] w1 (i1 & Eo & Hq & Ht & Hi & Hr).
    simpl in *. subst o. wp. simpl in *. rewrite Hq, Ht, app_nil_r. done.
  - wp_apply post_wsio_close. intros [r o] w1 (i1 & Eo & Hc & Ht & Hi & _).
    simpl in *. subst o. wp. simpl in *. rewrite Ht, app_nil_r. split_and!; try done.
    + intros H. apply Hi, H.
    + apply receiver_callbacks, Hc.
  - wp_apply post_wsio_send. intros [r o] w1 (i1 & Eo & Hc & Ht & Hi & Ho).
    simpl in *. subst o. wp. simpl in *. rewrite Ht, Ho. split_and!; try done.
    + destruct cb as [f|]; [|reflexivity].
      destruct (decide (r = 0 \/ r = 744)) as [Hd|Hd];
        destruct (decide (r = 0 \/ false = false /\ r = 744)) as [Hd'|Hd'];
        try reflexivity; exfalso; tauto.
    + apply receiver_callbacks, Hc.
  - wp_apply post_wsio_dowork. intros o w1 (i1 & -> & Hc & Ht & Hi).
    wp. simpl. rewrite Ht, app_nil_r. split_and!; try done.
    apply receiver_callbacks, Hc.
  - wp_apply post_on_ws_callback. intros [r i1] w1 (_ & Hc & Ht & Hi).
    simpl in *. rewrite Ht, app_nil_r. split_and!; try done.
    apply receiver_callbacks, Hc.
Qed.

Lemma queued_sends_cons b c cs r rs :
  queued_sends b (c :: cs) (r :: rs) =
  queued_sends b [c] [r] ++ queued_sends b cs rs.
Proof.
  destruct c as [| |buf sz [f|] ctx wr| |]; simpl; try reflexivity.
  case_decide; reflexivity.
Qed.

Lemma registered_cons c cs r rs cur :
  registered (c :: cs) (r :: rs) cur = registered cs rs (registered [c] [r] cur).
Proof. destruct c; reflexivity. Qed.

Lemma post_run cs : forall i w, post (run cs i) w (run_post cs i w).
Proof.
  induction cs as [|c cs IH]; intros i w; simpl; wp.
  { unfold run_post. simpl. rewrite !app_nil_r. done. }
  wp_apply post_step. intros [r i1] w1 (Hi & Ht & Hr). simpl in *.
  wp. wp_apply IH. intros [rs i2] w2 (Hl & Hi2 & Ht2 & Hr2). simpl in *.
  wp. unfold run_post. cbn [fst snd].
  rewrite queued_sends_cons, registered_cons. fold (newly_owed c r).
  split_and!.
  - simpl. congruence.
  - auto.
  - rewrite Ht2, app_assoc, Ht, <- !app_assoc. reflexivity.
  - rewrite Hr2, Hr. reflexivity.
Qed.

Lemma accepted_sublist cs : forall rs,
  queued_sends true cs rs `sublist_of` queued_sends false cs rs.
Proof.
  induction cs as [|c cs IH]; intros [|r rs].
  - constructor.
  - constructor.
  - destruct c as [| |? ? [?|] ? ?| |]; constructor.
  - rewrite (queued_sends_cons true), (queued_sends_cons false).
    apply sublist_app; [|apply IH].
    destruct c as [| |buf sz [f|] ctx wr| |]; simpl; try constructor.
    destruct (decide (r = 0 \/ true = false /\ r = 744)) as [[->|[? _]]|Ha];
      [|discriminate|].
    + rewrite decide_True by (left; reflexivity). reflexivity.
    + case_decide; [apply sublist_cons|]; apply sublist_nil.
Qed.

(** ** The list container *)

Lemma post_free_nodes {V} (items : list (LIST_ITEM_HANDLE V)) :
  forall w (Q : unit -> world -> Prop),
    (forall w', log w' = log w -> Q tt w') -> post (free_nodes items) w Q.
Proof.
  induction items as [|it items IH]; intros w Q H; simpl; wp; [auto|].
  apply IH. intros w2 E2. apply H. trace. reflexivity.
Qed.

Lemma post_list_destroy {V} (l : LIST_HANDLE V) w (Q : unit -> world -> Prop) :
  (forall w', log w' = log w -> Q tt w') -> post (list_destroy l) w Q.
Proof.
  intros H. unfold list_destroy. wp. apply post_free_nodes. intros w1 E1.
  wp. apply H. trace. reflexivity.
Qed.

Lemma post_list_create {V} w (Q : option (LIST_HANDLE V) -> world -> Prop) :
  (forall o w', log w' = log w -> (forall l, o = Some l -> val l = []) ->
     Q o w') ->
  post list_create w Q.
Proof.
  intros H. unfold list_create. wp. apply H; [trace; reflexivity|].
  intros l E. destruct p; simplify_eq. reflexivity.
Qed.

(** ** A fresh instance *)

Lemma wsio_create_fresh cfg lg w i w' :
  wsio_create cfg lg w = Some (Some i, w') ->
  Inv i /\ queue i = [] /\ log w' = log w /\
  io_state i = IO_STATE_NOT_OPEN /\ receiver i = (None, 0%nat).
Proof.
  intros H.
  assert (post (wsio_create cfg lg) w (fun o w' =>
            forall i, o = Some i ->
              Inv i /\ queue i = [] /\ log w' = log w /\
              io_state i = IO_STATE_NOT_OPEN /\ receiver i = (None, 0%nat)))
    as Hp.
  { unfold wsio_create.
    repeat first
      [ wp_step
      | apply post_list_create; intros ? ? ? ?
      | apply post_list_destroy; intros ? ?
      | wp_case ];
      intros i0 [=]; subst.
    all: unfold Inv, queue, receiver; simpl; trace.
    all: match goal with H : forall l, Some ?o = Some l -> _ |- _ =>
           rewrite (H o eq_refl) end.
    all: split_and!; try done. }
  exact (post_elim _ _ _ _ _ Hp H i eq_refl).
Qed.

(** ** wsio_destroy *)

Lemma post_wsio_destroy i w :
  post (wsio_destroy (Some i)) w (fun _ w' =>
    Inv i -> sent w' = sent w ++ owed (queue i)).
Proof.
  unfold wsio_destroy. wp.
  wp_apply post_wsio_close.
  intros [r o] w1 (i1 & Eo & Hc & Ht & Hi & _). simpl in *. subst o. wp.
  apply post_list_destroy. intros w7 E7. wp.
  intros HI. destruct (Hi HI) as [_ Hq]. rewrite Hq, app_nil_r in Ht.
  rewrite <- Ht. unfold sent. trace. reflexivity.
Qed.

Lemma wsio_destroy_returns i w :
  exists w', wsio_destroy (Some i) w = Some (tt, w').
Proof.
  unfold wsio_destroy.
  destruct (wsio_close_returns i None 0%nat w) as (r & i1 & w1 & E).
  unfold bind at 1. rewrite E. simpl.
  assert (forall {V} (items : list (LIST_ITEM_HANDLE V)) w,
            exists w', free_nodes items w = Some (tt, w')) as Hfree.
  { intros V items. induction items as [|it items IH]; intros w0; simpl.
    - eexists; reflexivity.
    - unfold bind, amqpalloc_free. apply IH. }
  unfold list_destroy, bind, amqpalloc_free.
  destruct (trusted_ca i1); simpl;
    match goal with
    | |- context [free_nodes ?l ?w] =>
        destruct (Hfree _ l w) as [w2 E2]; rewrite E2
    end; eexists; reflexivity.
Qed.

(** ** Concrete runs *)

Example fresh_instance_created :
  wsio_create (Some demo_config) None empty_world
  = Some (Some fresh_instance, fresh_world).
Proof. vm_compute. reflexivity. Qed.

Example opening_instance_reached :
  run [open_call] fresh_instance fresh_world
  = Some ([0], opening_instance, opening_world).
Proof. vm_compute. reflexivity. Qed.

Example open_instance_reached :
  run [open_call; Do_callback established] fresh_instance fresh_world
  = Some ([0; 0], open_instance, open_world).
Proof. vm_compute. reflexivity. Qed.

Lemma add_log_nil w : add_log w [] = w.
Proof. destruct w. unfold add_log. simpl. rewrite app_nil_r. reflexivity. Qed.

Lemma add_log_app w l1 l2 : add_log (add_log w l1) l2 = add_log w (l1 ++ l2).
Proof. unfold add_log. simpl. rewrite app_assoc. reflexivity. Qed.

Lemma indicate_open_complete_eq i r w :
  indicate_open_complete i r w =
  Some (tt, add_log w (opt_call (on_io_open_complete i) (fun f =>
              Call_on_io_open_complete f (open_callback_context i) r))).
Proof.
  unfold indicate_open_complete. destruct (on_io_open_complete i); simpl.
  - reflexivity.
  - rewrite add_log_nil. reflexivity.
Qed.

(** ** The tests at the head of wsio_send (C7) *)

(** C7.  [wsio_send] answers non-zero and changes nothing (the instance with
    its queue and state, the heap, the allocation script and the trace are
    what they were) whenever the handle is NULL, the buffer is NULL, the size
    is 0, or the instance is not OPEN. *)
Theorem wsio_send_rejects_without_effect (ws_io : option WSIO_INSTANCE)
    (buffer : option (list byte)) (sz : N) (cb : option fnptr)
    (ctx : context) (reply : Z) (w : world) :
  ws_io = None \/ buffer = None \/ sz = 0%N
  \/ (exists i, ws_io = Some i /\ io_state i <> IO_STATE_OPEN) ->
  exists r, wsio_send ws_io buffer sz cb ctx reply w = Some (r, ws_io, w)
            /\ r <> 0.
Proof.
  intros H. unfold wsio_send.
  destruct ws_io as [i|]; [|exists 711; done].
  destruct buffer as [buf|]; [|exists 711; done].
  destruct (decide (sz = 0%N)) as [Hz|Hz]; [exists 711; done|].
  destruct (decide (io_state i <> IO_STATE_OPEN)) as [Hs|Hs];
    [exists 720; done|].
  exfalso. destruct H as [?|[?|[?|(i' & [= <-] & Hn)]]]; done.
Qed.

Lemma wsio_send_rejects_without_effect_witness :
  exists r, wsio_send (Some opening_instance) (Some [x01; x02]) 2%N
                      (Some 7%nat) 70%nat 0 opening_world
            = Some (r, Some opening_instance, opening_world) /\ r <> 0.
Proof.
  apply wsio_send_rejects_without_effect.
  right. right. right. exists opening_instance. split; [reflexivity|].
  vm_compute. discriminate.
Defined.

(** ** Received bytes (C9) *)

(** X2.  After any history in which the last [wsio_open] that got past the
    state test registered an on_bytes_received that is not NULL, a
    bytes-received event makes exactly one call, to that function, with the
    context given to that open and with the payload pointer and the length
    of the event as they came; the instance is left as it was, so nothing
    is buffered. *)
Theorem bytes_received_forwarded (cs : list api_call)
    (i0 : WSIO_INSTANCE) (w0 : world) (rs : list Z) (i : WSIO_INSTANCE)
    (w : world) (f : fnptr) (ctx : context)
    (in_ : option (list byte)) (len : N) (e : replies) :
  run cs i0 w0 = Some (rs, i, w) ->
  registered cs rs (receiver i0) = (Some f, ctx) ->
  on_ws_callback i LWS_CALLBACK_CLIENT_RECEIVE in_ len e w
  = Some ((0, i), add_log w [Call_on_bytes_received f ctx in_ len]).
Proof.
  intros Hrun Hreg.
  destruct (post_elim _ _ _ _ _ (post_run cs i0 w0) Hrun) as (_ & _ & _ & Hr).
  simpl in Hr. rewrite Hreg in Hr. unfold receiver in Hr.
  injection Hr as Hf Hc. unfold on_ws_callback. rewrite Hf, Hc. reflexivity.
Qed.

Lemma bytes_received_forwarded_witness :
  on_ws_callback open_instance LWS_CALLBACK_CLIENT_RECEIVE
    (Some [x0a; x0b; x0c]) 3%N (ev_replies established) open_world
  = Some ((0, open_instance),
          add_log open_world
            [Call_on_bytes_received 2%nat 9%nat (Some [x0a; x0b; x0c]) 3%N]).
Proof.
  apply (bytes_received_forwarded [open_call; Do_callback established]
           fresh_instance fresh_world [0; 0]).
  - vm_compute. reflexivity.
  - vm_compute. reflexivity.
Defined.

(** C9 on the code.  [wsio_open] takes a NULL on_bytes_received: it stores
    the pointer untested (line 542) and answers 0.  Once the connection is
    established, the receive case calls the pointer untested (line 296), so
    a bytes-received event is not forwarded: the call has no defined
    behaviour.  Every other callback is tested for NULL before it is called
    (lines 59, 68, 216, 239, 262, 660 and 685). *)
Theorem null_receiver_is_called :
  exists i w,
    run [ Do_open (Some 1%nat) None (Some 3%nat) 9%nat
            (Some 100%nat) (Some 101%nat);
          Do_callback established ] fresh_instance fresh_world
      = Some ([0; 0], i, w) /\
    io_state i = IO_STATE_OPEN /\
    on_bytes_received i = None /\
    on_ws_callback i LWS_CALLBACK_CLIENT_RECEIVE (Some [x0a; x0b; x0c]) 3%N
      (ev_replies established) w = None.
Proof.
  eexists _, _. split; [vm_compute; reflexivity|].
  split_and!; vm_compute; reflexivity.
Qed.

(** ** Completions (C3) and the OPENING state (C10) *)

Lemma reachable_spec cfg lg w0 i0 w1 cs rs i w :
  wsio_create cfg lg w0 = Some (Some i0, w1) ->
  run cs i0 w1 = Some (rs, i, w) ->
  Inv i /\ sent w ++ owed (queue i) = sent w0 ++ queued_sends false cs rs.
Proof.
  intros Hc Hrun.
  destruct (wsio_create_fresh _ _ _ _ _ Hc) as (Hi & Hq & Hl & _).
  destruct (post_elim _ _ _ _ _ (post_run cs i0 w1) Hrun) as (_ & HI & Ht & _).
  simpl in *. split; [auto|]. rewrite Ht, Hq. unfold sent. rewrite Hl.
  reflexivity.
Qed.

(** C3.  Take any history of calls and engine events on a created instance.
    The send completions made so far, followed by those the queue still owes,
    are the queued sends of the history in the order of the [wsio_send]
    calls, each with its own callback and context; the accepted sends (answer
    0) are among them in that order; and once the instance is closed or
    destroyed every one of them has been made, exactly once.  Partial writes
    leave a write at the head of the queue and make no call, so the number of
    rounds does not matter. *)
Theorem send_completions_once_in_order (cfg : option WSIO_CONFIG)
    (lg : option fnptr) (w0 : world) (i0 : WSIO_INSTANCE) (w1 : world)
    (cs : list api_call) (rs : list Z) (i : WSIO_INSTANCE) (w : world) :
  wsio_create cfg lg w0 = Some (Some i0, w1) ->
  run cs i0 w1 = Some (rs, i, w) ->
  sent w ++ owed (queue i) = sent w0 ++ queued_sends false cs rs /\
  queued_sends true cs rs `sublist_of` queued_sends false cs rs /\
  (forall cc ctx, exists r o w',
      wsio_close (Some i) cc ctx w = Some (r, o, w') /\
      sent w' = sent w0 ++ queued_sends false cs rs) /\
  (exists w', wsio_destroy (Some i) w = Some (tt, w') /\
      sent w' = sent w0 ++ queued_sends false cs rs).
Proof.
  intros Hc Hrun. destruct (reachable_spec _ _ _ _ _ _ _ _ _ Hc Hrun) as [HI Ht].
  split_and!.
  - exact Ht.
  - apply accepted_sublist.
  - intros cc ctx. destruct (wsio_close_returns i cc ctx w) as (r & i' & w' & E).
    exists r, (Some i'), w'. split; [exact E|].
    destruct (post_elim _ _ _ _ _ (post_wsio_close i cc ctx w) E)
      as (i2 & Ei & _ & Ht2 & Hi2 & _).
    destruct (Hi2 HI) as [_ Hq]. rewrite Hq, app_nil_r in Ht2. congruence.
  - destruct (wsio_destroy_returns i w) as [w' E]. exists w'.
    split; [exact E|].
    rewrite (post_elim _ _ _ _ _ (post_wsio_destroy i w) E HI). exact Ht.
Qed.

(** C10.  In every state that calls and engine events reach from a created
    instance, an instance that is OPENING has an empty queue; closing it
    there succeeds, makes no send completion and leaves the queue empty, so
    the branch of [wsio_close] that skips the cancelling loop skips
    nothing. *)
Theorem opening_has_empty_queue (cfg : option WSIO_CONFIG)
    (lg : option fnptr) (w0 : world) (i0 : WSIO_INSTANCE) (w1 : world)
    (cs : list api_call) (rs : list Z) (i : WSIO_INSTANCE) (w : world) :
  wsio_create cfg lg w0 = Some (Some i0, w1) ->
  run cs i0 w1 = Some (rs, i, w) ->
  io_state i = IO_STATE_OPENING ->
  queue i = [] /\
  forall cc ctx, exists i' w',
    wsio_close (Some i) cc ctx w = Some (0, Some i', w') /\
    io_state i' = IO_STATE_NOT_OPEN /\ queue i' = [] /\ sent w' = sent w.
Proof.
  intros Hc Hrun Hs.
  destruct (reachable_spec _ _ _ _ _ _ _ _ _ Hc Hrun) as [HI _].
  assert (queue i = []) as Hq by (apply HI; auto).
  split; [exact Hq|]. intros cc ctx.
  destruct (wsio_close_returns i cc ctx w) as (r & i' & w' & E).
  destruct (post_elim _ _ _ _ _ (post_wsio_close i cc ctx w) E)
    as (i2 & Ei & _ & Ht & Hi & Hr).
  simpl in *. injection Ei as <-.
  destruct (Hi HI) as [_ Hq']. rewrite Hq, Hq', !app_nil_r in Ht.
  destruct Hr as [(-> & _ & Hs' & _)|(_ & Hn & _)]; [|congruence].
  exists i', w'. done.
Qed.

Lemma send_completions_once_in_order_witness :
  exists rs i w,
    run demo_history fresh_instance fresh_world = Some (rs, i, w) /\
    sent w ++ owed (queue i) = [(7, 70); (8, 80); (7, 71)]%nat /\
    sent w ++ owed (queue i)
      = sent empty_world ++ queued_sends false demo_history rs /\
    queued_sends true demo_history rs
      `sublist_of` queued_sends false demo_history rs.
Proof.
  eexists _, _, _. split; [vm_compute; reflexivity|].
  split; [vm_compute; reflexivity|].
  pose proof (send_completions_once_in_order (Some demo_config) None
                empty_world fresh_instance fresh_world demo_history) as H.
  edestruct H as (H1 & H2 & _); [exact fresh_instance_created| |].
  - vm_compute. reflexivity.
  - split; [exact H1|exact H2].
Defined.

Lemma opening_has_empty_queue_witness :
  queue opening_instance = [] /\
  forall cc ctx, exists i' w',
    wsio_close (Some opening_instance) cc ctx opening_world
      = Some (0, Some i', w') /\
    io_state i' = IO_STATE_NOT_OPEN /\ queue i' = [] /\
    sent w' = sent opening_world.
Proof.
  apply (opening_has_empty_queue (Some demo_config) None empty_world
           fresh_instance fresh_world [open_call] [0]).
  - exact fresh_instance_created.
  - vm_compute. reflexivity.
  - reflexivity.
Defined.

(** ** Closing while an open is pending (C6) *)

(** C6.  On an OPENING instance with an open-complete callback,
    [wsio_close] calls it with IO_OPEN_CANCELLED, then destroys the
    libwebsockets context, then makes the close-complete call if one was
    asked for, answers 0 and leaves the instance NOT_OPEN; a [wsio_open] that
    follows, for which libwebsockets yields a context and a connection,
    answers 0 and leaves the instance OPENING. *)
Theorem close_while_opening_then_reopen (i : WSIO_INSTANCE)
    (cc : option fnptr) (ctx : context) (f : fnptr) (w : world) :
  io_state i = IO_STATE_OPENING ->
  on_io_open_complete i = Some f ->
  exists i' w',
    wsio_close (Some i) cc ctx w = Some (0, Some i', w') /\
    io_state i' = IO_STATE_NOT_OPEN /\
    log w' = log w
             ++ [ Call_on_io_open_complete f (open_callback_context i)
                    IO_OPEN_CANCELLED;
                  Call_lws_context_destroy (ws_context i) ]
             ++ opt_call cc (fun g => Call_on_io_close_complete g ctx) /\
    forall oc br er ctx' c s, exists i'' w'',
      wsio_open (Some i') oc br er ctx' (Some c) (Some s) w'
        = Some (0, Some i'', w'') /\
      io_state i'' = IO_STATE_OPENING.
Proof.
  intros Hs Hf. unfold wsio_close.
  rewrite decide_False by (rewrite Hs; discriminate).
  rewrite decide_True by exact Hs.
  unfold bind at 1 2. rewrite indicate_open_complete_eq, Hf.
  unfold bind, ret, emit, opt_call.
  destruct cc as [g|]; simpl; eexists _, _; (split; [reflexivity|]); simpl;
    (split; [reflexivity|]); rewrite <- ?app_assoc; simpl;
    (split; [rewrite ?app_nil_r; reflexivity|]);
    intros oc br er ctx' c s;
    unfold wsio_open, wsio_open_reentrant, bind, ret, emit; simpl;
    eexists _, _; split; reflexivity.
Qed.

Lemma close_while_opening_then_reopen_witness :
  exists i' w',
    wsio_close (Some opening_instance) (Some 4%nat) 40%nat opening_world
      = Some (0, Some i', w') /\
    io_state i' = IO_STATE_NOT_OPEN /\
    log w' = log opening_world
             ++ [ Call_on_io_open_complete 1%nat 9%nat IO_OPEN_CANCELLED;
                  Call_lws_context_destroy (Some 100%nat) ]
             ++ [ Call_on_io_close_complete 4%nat 40%nat ] /\
    forall oc br er ctx' c s, exists i'' w'',
      wsio_open (Some i') oc br er ctx' (Some c) (Some s) w'
        = Some (0, Some i'', w'') /\
      io_state i'' = IO_STATE_OPENING.
Proof.
  apply (close_while_opening_then_reopen opening_instance (Some 4%nat)
           40%nat 1%nat opening_world); reflexivity.
Defined.

(** ** A failed notification request (C5) *)

Lemma log_bytes_eq f bs : forall w,
  log_bytes f bs w = Some (tt, add_log w (map (Call_LOG f) bs)).
Proof.
  induction bs as [|b bs IH]; intros w; simpl.
  - unfold ret. rewrite add_log_nil. reflexivity.
  - unfold bind, emit. fold (add_log w [Call_LOG f b]).
    rewrite IH, add_log_app. reflexivity.
Qed.

(** C5, as the code has it.  When the write has been queued (the instance is
    OPEN, the size is not 0 and the three allocations of [add_pending_io]
    succeed) and [lws_callback_on_writable] answers a negative value,
    [wsio_send] answers 744, a failure, and yet the write stays at the tail
    of the queue with the bytes, callback and context of the call. *)
Theorem wsio_send_notification_failure (i : WSIO_INSTANCE)
    (buf : list byte) (sz : N) (cb : option fnptr) (ctx : context)
    (reply : Z) (w : world) :
  io_state i = IO_STATE_OPEN -> sz <> 0%N -> reply < 0 ->
  (forall k, (k < 3)%nat -> plan w !! k <> Some false) ->
  exists it i' w',
    wsio_send (Some i) (Some buf) sz cb ctx reply w = Some (744, Some i', w')
    /\ queue i' = queue i ++ [it]
    /\ io_state i' = IO_STATE_OPEN
    /\ val (bytes (val (val it))) = memcpy buf sz
    /\ size (val (val it)) = sz
    /\ on_send_complete (val (val it)) = cb
    /\ callback_context (val (val it)) = ctx
    /\ log w' = log w ++ logged i buf sz
                      ++ [Call_lws_callback_on_writable (wsi i)].
Proof.
  intros Hs Hz Hr Hplan. unfold wsio_send.
  rewrite decide_False by exact Hz.
  rewrite decide_False by (rewrite Hs; intros H; apply H; reflexivity).
  assert (match logger_log i with
          | Some f => log_bytes f (memcpy buf sz)
          | None => ret tt
          end w = Some (tt, add_log w (logged i buf sz))) as El.
  { unfold logged. destruct (logger_log i).
    - apply log_bytes_eq.
    - unfold ret. rewrite add_log_nil. reflexivity. }
  unfold bind at 1. rewrite El.
  destruct w as [lv nx pl lg]. simpl in Hplan.
  assert (hd true pl = true) as H0.
  { destruct pl as [|[] ?]; try reflexivity.
    exfalso. apply (Hplan 0%nat); [lia|reflexivity]. }
  assert (hd true (tl pl) = true) as H1.
  { destruct pl as [|? [|[] ?]]; try reflexivity.
    exfalso. apply (Hplan 1%nat); [lia|reflexivity]. }
  assert (hd true (tl (tl pl)) = true) as H2.
  { destruct pl as [|? [|? [|[] ?]]]; try reflexivity.
    exfalso. apply (Hplan 2%nat); [lia|reflexivity]. }
  unfold add_pending_io, list_add, bind, ret, emit, amqpalloc_malloc,
    add_log.
  simpl. rewrite H0. simpl. rewrite H1. simpl. rewrite H2. simpl.
  rewrite decide_True by exact Hr.
  eexists _, _, _. split; [reflexivity|]. unfold queue. simpl.
  rewrite <- ?app_assoc. split_and!; try done.
Qed.

Lemma wsio_send_notification_failure_witness :
  exists it i' w',
    wsio_send (Some open_instance) (Some [x01; x02; x03]) 3%N (Some 7%nat)
              70%nat (-1) open_world
      = Some (744, Some i', w')
    /\ queue i' = queue open_instance ++ [it]
    /\ io_state i' = IO_STATE_OPEN
    /\ val (bytes (val (val it))) = memcpy [x01; x02; x03] 3%N
    /\ size (val (val it)) = 3%N
    /\ on_send_complete (val (val it)) = Some 7%nat
    /\ callback_context (val (val it)) = 70%nat
    /\ log w' = log open_world ++ logged open_instance [x01; x02; x03] 3%N
                ++ [Call_lws_callback_on_writable (wsi open_instance)].
Proof.
  apply wsio_send_notification_failure.
  - reflexivity.
  - discriminate.
  - lia.
  - intros k Hk. destruct k; simpl; discriminate.
Defined.

(** C5 as the specification words it fails here: the notification request
    fails on an OPEN instance, and the send is answered with 744, not with
    the 0 of an accepted send, while the write is in the queue. *)
Lemma failed_notification_is_not_an_accepted_send :
  (exists i' w',
     wsio_send (Some open_instance) (Some [x01; x02; x03]) 3%N (Some 7%nat)
               70%nat (-1) open_world
       = Some (744, Some i', w') /\ length (queue i') = 1%nat) /\
  ~ (exists o w',
       wsio_send (Some open_instance) (Some [x01; x02; x03]) 3%N (Some 7%nat)
                 70%nat (-1) open_world
         = Some (0, o, w')).
Proof.
  split.
  - eexists _, _. split; vm_compute; reflexivity.
  - intros (o & w' & E). vm_compute in E. discriminate.
Qed.

(** ** The ERROR state (C4) *)


(** ** Partial writes (C1, C2) *)

(** No branch of wsio.c sets [is_partially_sent]: in every reachable state
    each queued write still has it false, and the instance is not in the
    ERROR state. *)
Lemma is_partially_sent_never_set cfg lg w0 i0 w1 cs rs i w :
  wsio_create cfg lg w0 = Some (Some i0, w1) ->
  run cs i0 w1 = Some (rs, i, w) ->
  Forall unsent (queue i) /\ io_state i <> IO_STATE_ERROR.
Proof.
  intros Hc Hrun.
  destruct (reachable_spec _ _ _ _ _ _ _ _ _ Hc Hrun) as [(Hu & He & _) _].
  split; assumption.
Qed.

(** What the partial branch does to the write at the head of the queue, for
    any instance: the bytes are moved to the front, and the size and the
    mark are what they were. *)
Lemma on_writeable_partial i la it rest n w :
  pending_io_list i = Owned la (it :: rest) ->
  hd true (plan w) = true ->
  0 <= n -> (Z.to_N n < size (val (val it)))%N ->
  exists i' w' it',
    on_writeable i n w = Some (i', w') /\
    queue i' = it' :: rest /\
    io_state i' = io_state i /\
    size (val (val it')) = size (val (val it)) /\
    is_partially_sent (val (val it')) = is_partially_sent (val (val it)) /\
    val (bytes (val (val it'))) =
      memmove (val (bytes (val (val it)))) (Z.to_N n)
              (size (val (val it)) - Z.to_N n) /\
    sent w' = sent w.
Proof.
  intros E Hp Hn Hlt.
  unfold on_writeable, list_get_head_item, list_item_get_value.
  rewrite E. simpl.
  unfold bind at 1. unfold amqpalloc_malloc. rewrite Hp.
  unfold bind, ret, emit, amqpalloc_free. simpl.
  rewrite decide_False by lia. rewrite decide_True by exact Hlt.
  simpl. rewrite Nat.eqb_refl. simpl.
  eexists _, _, _. split; [reflexivity|]. unfold queue, sent. simpl.
  rewrite !send_completions_app, !app_nil_r. split_and!; reflexivity.
Qed.

(** C1 on the code.  A write of six bytes goes out in part (two bytes), and
    the next round fails, once because [lws_write] answers -1 and once
    because the framing buffer cannot be allocated.  Either way the write
    gets one IO_SEND_ERROR and leaves the queue, but the instance stays OPEN
    and on_io_error (function 3) is never called. *)
Theorem failure_after_partial_write_stays_open :
  (exists rs i w,
     run [send_six; Do_dowork [writeable 2]; Do_dowork [writeable (-1)]]
         open_instance open_world = Some (rs, i, w) /\
     io_state i = IO_STATE_OPEN /\ queue i = [] /\
     log w = log open_world ++
       [ Call_lws_callback_on_writable (Some 101%nat);
         Call_lws_service (Some 100%nat);
         Call_lws_write (Some 101%nat) six 6%N 2;
         Call_lws_callback_on_writable (Some 101%nat);
         Call_lws_service (Some 100%nat);
         Call_lws_write (Some 101%nat)
           [x03; x04; x05; x06; x05; x06] 6%N (-1);
         Call_on_send_complete 7%nat 70%nat IO_SEND_ERROR ]) /\
  (exists rs i w,
     run [send_six; Do_dowork [writeable 2]; Do_dowork [writeable 6]]
         open_instance (with_plan open_world [true; true; true; true; false])
       = Some (rs, i, w) /\
     io_state i = IO_STATE_OPEN /\ queue i = [] /\
     log w = log open_world ++
       [ Call_lws_callback_on_writable (Some 101%nat);
         Call_lws_service (Some 100%nat);
         Call_lws_write (Some 101%nat) six 6%N 2;
         Call_lws_callback_on_writable (Some 101%nat);
         Call_lws_service (Some 100%nat);
         Call_on_send_complete 7%nat 70%nat IO_SEND_ERROR ]).
Proof.
  split; eexists _, _, _; (split; [vm_compute; reflexivity|]);
    split_and!; vm_compute; reflexivity.
Qed.

(** C2 on the code.  After [lws_write] takes two of the six bytes, the write
    is still at the head of the queue and no completion is made, but its
    size is still 6 and it is not marked partially sent, so the next round
    hands [lws_write] six bytes again: the four that remain and two stale
    ones.  When that round takes four bytes, six bytes have gone out and the
    write is still pending; when it takes all six, the completion is
    IO_SEND_OK and the engine has taken eight bytes, not the six of the
    caller. *)
Theorem partial_write_resubmits_full_size :
  (exists rs i w it,
     run [send_six; Do_dowork [writeable 2]; Do_dowork [writeable 4]]
         open_instance open_world = Some (rs, i, w) /\
     queue i = [it] /\
     size (val (val it)) = 6%N /\
     is_partially_sent (val (val it)) = false /\
     val (bytes (val (val it))) = [x05; x06; x05; x06; x05; x06] /\
     sent w = [] /\
     log w = log open_world ++
       [ Call_lws_callback_on_writable (Some 101%nat);
         Call_lws_service (Some 100%nat);
         Call_lws_write (Some 101%nat) six 6%N 2;
         Call_lws_callback_on_writable (Some 101%nat);
         Call_lws_service (Some 100%nat);
         Call_lws_write (Some 101%nat)
           [x03; x04; x05; x06; x05; x06] 6%N 4;
         Call_lws_callback_on_writable (Some 101%nat) ]) /\
  (exists rs i w,
     run [send_six; Do_dowork [writeable 2]; Do_dowork [writeable 6]]
         open_instance open_world = Some (rs, i, w) /\
     queue i = [] /\
     sent w = [(7, 70)]%nat /\
     bytes_written (log w) = [x01; x02; x03; x04; x05; x06; x05; x06] /\
     bytes_written (log w) <> six).
Proof.
  split.
  - eexists _, _, _, _. split; [vm_compute; reflexivity|].
    split_and!; vm_compute; reflexivity.
  - eexists _, _, _. split; [vm_compute; reflexivity|].
    split_and!; try (vm_compute; reflexivity).
    vm_compute. discriminate.
Qed.

(** ** Construction (C8) *)

(** Case analysis on the next allocation outcome of the script. *)
Ltac step_plan :=
  match goal with
  | |- context [hd true ?pl] =>
      is_var pl; destruct pl as [|[] ?]; cbn [hd tl]
  end.

(** C8.  In a heap whose live blocks were all handed out by the allocator,
    [wsio_create] always returns; it returns NULL when the configuration is
    NULL, when host, protocol_name or relative_path is NULL, and when one of
    the allocations it makes fails; and whenever it returns NULL the live
    blocks are those that were live before the call, so the instance, the
    list, the strings and the protocol table allocated up to the failure
    have all been freed. *)
Theorem wsio_create_fails_cleanly (cfg : option WSIO_CONFIG)
    (lg : option fnptr) (w : world) :
  heap_ok w ->
  exists r w', wsio_create cfg lg w = Some (r, w') /\
    (config_missing cfg \/
     (exists k, (k < allocations cfg)%nat /\ plan w !! k = Some false) ->
     r = None) /\
    (r = None -> live w' = live w /\ log w' = log w).
Proof.
  intros Hok. destruct w as [lv nx pl lg0]. unfold heap_ok in Hok.
  simpl in Hok.
  destruct cfg as [c|]; simpl;
    [|eexists _, _; split; [reflexivity|]; split; [reflexivity|]; done].
  unfold wsio_create.
  destruct (cfg_host c) as [h|] eqn:Eh;
    destruct (cfg_protocol_name c) as [pn|] eqn:Epn;
    destruct (cfg_relative_path c) as [rp|] eqn:Erp;
    try (eexists _, _; split; [reflexivity|]; split; [reflexivity|]; done).
  unfold list_create, list_destroy, free_nodes, bind, ret, amqpalloc_malloc,
    amqpalloc_free; simpl.
  repeat (first [ step_plan | progress simpl ]).
  all: try destruct (cfg_trusted_ca c) eqn:Eca; simpl.
  all: repeat (first [ step_plan | progress simpl ]).
  all: eexists _, _; (split; [reflexivity|]); simpl.
  all: split.
  (* a failure among the attempted allocations gives NULL *)
  all: try (intros [[?|[?|?]]|(k & Hk & Hl)]; try discriminate;
            repeat (destruct k as [|k]; simpl in Hl;
                    try discriminate; try lia);
            try reflexivity).
  (* NULL leaves the heap as it was *)
  all: try discriminate.
  all: intros _; split; [|reflexivity];
    apply set_eq; intros x; specialize (Hok x); set_unfold; intuition lia.
Qed.

Lemma wsio_create_fails_cleanly_witness :
  exists r w',
    wsio_create (Some demo_config) None
      (with_plan fresh_world [true; true; true; false]) = Some (r, w') /\
    (config_missing (Some demo_config) \/
     (exists k, (k < allocations (Some demo_config))%nat /\
        plan (with_plan fresh_world [true; true; true; false]) !! k
          = Some false) ->
     r = None) /\
    (r = None ->
     live w' = live (with_plan fresh_world [true; true; true; false]) /\
     log w' = log (with_plan fresh_world [true; true; true; false])).
Proof.
  apply wsio_create_fails_cleanly.
  intros p Hp. simpl in *. set_unfold. simpl. lia.
Defined.

(** * Further properties of the code *)

(** ** Single operations *)

(** The empty world and the world of an open instance are heaps in order. *)
Lemma empty_world_ok : heap_ok empty_world.
Proof. intros p Hp. simpl in Hp. set_unfold. destruct Hp. Qed.

Lemma open_world_ok : heap_ok open_world.
Proof. intros p Hp. simpl in *. set_unfold. simpl. lia. Qed.

Lemma malloc_allowed w n :
  plan_allows w (S n) ->
  amqpalloc_malloc w = Some (Some (next w), alloc_ok w) /\
  plan_allows (alloc_ok w) n.
Proof.
  intros H. split.
  - unfold amqpalloc_malloc, alloc_ok.
    destruct (plan w) as [|[] ?] eqn:E; try reflexivity.
    exfalso. apply (H 0%nat); [lia|]. rewrite E. reflexivity.
  - intros k Hk. specialize (H (S k) ltac:(lia)). unfold alloc_ok. simpl.
    destruct (plan w); simpl in *; [|exact H]. discriminate.
Qed.

(** Run the next allocation of the goal under [plan_allows]. *)
Ltac alloc H :=
  let E := fresh "E" in
  let H' := fresh "Hp" in
  destruct (malloc_allowed _ _ H) as [E H'];
  unfold bind at 1; rewrite E; clear E; cbv beta iota;
  clear H; rename H' into H.

(** X1.  When the configuration has a host, a protocol name and a relative
    path, and none of the allocations fails, [wsio_create] returns an
    instance that is NOT_OPEN, with an empty queue, no callbacks, no engine
    context and no connection, that holds the logger and copies of the
    configured strings, port and TLS flag, and a protocol table of two rows:
    the configured protocol name with [on_ws_callback], and the all-zero
    terminator.  It makes no call, and the live blocks are those of before
    plus the six or seven it allocated. *)
Theorem wsio_create_succeeds (c : WSIO_CONFIG) (lg : option fnptr)
    (w : world) (h pn rp : string) :
  cfg_host c = Some h -> cfg_protocol_name c = Some pn ->
  cfg_relative_path c = Some rp ->
  plan_allows w (allocations (Some c)) ->
  exists i w',
    wsio_create (Some c) lg w = Some (Some i, w') /\
    io_state i = IO_STATE_NOT_OPEN /\ queue i = [] /\
    callbacks_of i = (None, None, None, 0%nat) /\
    logger_log i = lg /\
    ws_context i = None /\ wsi i = None /\
    val (host i) = h /\ val (relative_path i) = rp /\
    val (protocol_name i) = pn /\
    port i = cfg_port c /\ use_ssl i = cfg_use_ssl c /\
    val <$> trusted_ca i = cfg_trusted_ca c /\
    val (protocols i) =
      [ {| name := Some pn; callback := true; per_session_data_size := 0%N;
           rx_buffer_size := 0%N; id := 0; user := None |};
        {| name := None; callback := false; per_session_data_size := 0%N;
           rx_buffer_size := 0%N; id := 0; user := None |} ] /\
    log w' = log w /\
    next w' = (next w + allocations (Some c))%nat /\
    live w' = fresh_blocks w (allocations (Some c)) ∪ live w.
Proof.
  intros Eh Epn Erp Hp. unfold wsio_create. rewrite Eh, Epn, Erp.
  unfold allocations, fresh_blocks in *.
  destruct (cfg_trusted_ca c) as [ca|] eqn:Eca.
  - alloc Hp. unfold list_create. unfold bind at 1. alloc Hp.
    unfold ret at 1. cbv beta iota.
    alloc Hp. alloc Hp. alloc Hp. alloc Hp. alloc Hp.
    clear Hp. eexists _, _. split; [reflexivity|]. unfold queue. simpl.
    split_and!; try reflexivity; [lia|].
    apply set_eq; intros x; set_unfold; intuition lia.
  - alloc Hp. unfold list_create. unfold bind at 1. alloc Hp.
    unfold ret at 1. cbv beta iota.
    alloc Hp. alloc Hp. alloc Hp. alloc Hp.
    clear Hp. eexists _, _. split; [reflexivity|]. unfold queue. simpl.
    split_and!; try reflexivity; [lia|].
    apply set_eq; intros x; set_unfold; intuition lia.
Qed.

Lemma wsio_create_succeeds_witness :
  exists i w',
    wsio_create (Some demo_config) None empty_world = Some (Some i, w') /\
    io_state i = IO_STATE_NOT_OPEN /\ queue i = [].
Proof.
  destruct (wsio_create_succeeds demo_config None empty_world
              "example.org" "AMQPWSB10" "/ws" eq_refl eq_refl eq_refl)
    as (i & w' & E & Hs & Hq & _).
  - intros k _. simpl. rewrite lookup_nil. discriminate.
  - exists i, w'. split_and!; [exact E|exact Hs|exact Hq].
Defined.

(** X3.  When one of the three allocations of a send fails (the
    PENDING_SOCKET_IO, its copy of the bytes, or the list node), [wsio_send]
    on an OPEN instance answers the non-zero value of line 736, leaves the
    instance as it was, has freed what it had allocated, and has made no
    call except logging the bytes: it neither queues anything nor asks
    libwebsockets for a writeable callback. *)
Theorem wsio_send_rolls_back (i : WSIO_INSTANCE) (buf : list byte) (sz : N)
    (cb : option fnptr) (ctx : context) (reply : Z) (w : world) :
  heap_ok w ->
  io_state i = IO_STATE_OPEN -> sz <> 0%N ->
  (exists k, (k < 3)%nat /\ plan w !! k = Some false) ->
  exists w',
    wsio_send (Some i) (Some buf) sz cb ctx reply w = Some (736, Some i, w')
    /\ live w' = live w
    /\ log w' = log w ++ logged i buf sz.
Proof.
  intros Hok Hs Hz (k & Hk & Hf). unfold wsio_send.
  rewrite decide_False by exact Hz.
  rewrite decide_False by (rewrite Hs; intros H; apply H; reflexivity).
  assert (match logger_log i with
          | Some f => log_bytes f (memcpy buf sz)
          | None => ret tt
          end w = Some (tt, add_log w (logged i buf sz))) as El.
  { unfold logged. destruct (logger_log i).
    - apply log_bytes_eq.
    - unfold ret. rewrite add_log_nil. reflexivity. }
  unfold bind at 1. rewrite El.
  destruct w as [lv nx pl lg]. unfold heap_ok in Hok. simpl in *.
  unfold add_pending_io, list_add, bind, ret, emit, amqpalloc_malloc,
    amqpalloc_free, add_log. simpl.
  destruct pl as [|[] [|[] [|[] pl]]]; simpl in *;
    try (exfalso; repeat (destruct k as [|k]; simpl in Hf;
                          try discriminate; try lia); fail);
    eexists; (split; [reflexivity|]); simpl; (split; [|reflexivity]);
    apply set_eq; intros x; specialize (Hok x); set_unfold; intuition lia.
Qed.

Lemma wsio_send_rolls_back_witness :
  exists w',
    wsio_send (Some open_instance) (Some six) 6%N (Some 7%nat) 70%nat 0
      (with_plan open_world [true; false])
      = Some (736, Some open_instance, w') /\
    live w' = live open_world.
Proof.
  destruct (wsio_send_rolls_back open_instance six 6%N (Some 7%nat) 70%nat 0
              (with_plan open_world [true; false]))
    as (w' & E & Hl & _).
  - exact open_world_ok.
  - reflexivity.
  - discriminate.
  - exists 1%nat. split; [lia|reflexivity].
  - exists w'. split; [exact E|exact Hl].
Defined.

Lemma memcpy_memcpy buf sz : memcpy (memcpy buf sz) sz = memcpy buf sz.
Proof. unfold memcpy. rewrite take_take. f_equal. lia. Qed.

Lemma set_pending_io_list_same i :
  set_pending_io_list i (pending_io_list i) = i.
Proof. destruct i. reflexivity. Qed.

(** X4.  A round trip.  On an OPEN instance with an empty queue, a send of
    [sz] bytes followed by a writeable event in which [lws_write] takes
    them all hands libwebsockets exactly the first [sz] bytes of the
    caller's buffer, completes the send with IO_SEND_OK once when it has a
    callback, asks for no further writeable callback, and leaves the
    instance and the live blocks exactly as they were before the send. *)
Theorem send_then_full_write_round_trip (i : WSIO_INSTANCE)
    (buf : list byte) (sz : N) (cb : option fnptr) (ctx : context)
    (reply n : Z) (w : world) :
  heap_ok w ->
  io_state i = IO_STATE_OPEN -> queue i = [] -> sz <> 0%N ->
  plan_allows w 4 ->
  0 <= reply -> 0 <= n -> (sz <= Z.to_N n)%N ->
  exists w',
    run [Do_send (Some buf) sz cb ctx reply; Do_callback (writeable n)] i w
      = Some ([0; 0], i, w') /\
    live w' = live w /\
    log w' = log w ++ logged i buf sz
             ++ [ Call_lws_callback_on_writable (wsi i);
                  Call_lws_write (wsi i) (memcpy buf sz) sz n ]
             ++ opt_call cb (fun f => Call_on_send_complete f ctx IO_SEND_OK).
Proof.
  intros Hok Hs Hq Hz Hp Hr Hn Hle.
  assert (match logger_log i with
          | Some f => log_bytes f (memcpy buf sz)
          | None => ret tt
          end w = Some (tt, add_log w (logged i buf sz))) as El.
  { unfold logged. destruct (logger_log i).
    - apply log_bytes_eq.
    - unfold ret. rewrite add_log_nil. reflexivity. }
  unfold run, step, wsio_send.
  destruct (decide (sz = 0%N)) as [?|_]; [done|].
  destruct (decide (io_state i <> IO_STATE_OPEN)) as [?|_]; [done|].
  unfold bind at 1 2 3. rewrite El. clear El.
  unfold logged.
  destruct i as [sf brc occ erc lgr octx st [la q] wc ws pt h rp pn ca ps ssl].
  unfold queue in Hq. cbn in Hq, Hs. subst q st.
  unfold add_pending_io, list_add, on_ws_callback, on_writeable,
    list_get_head_item, list_item_get_value, indicate_send_complete,
    list_remove, after_list_remove, still, writeable,
    bind, ret, emit, amqpalloc_malloc, amqpalloc_free, add_log.
  destruct w as [lv nx pl lg]. unfold heap_ok in Hok.
  cbn [live next plan log] in *.
  assert (pl = [] \/ pl = [true] \/ pl = [true; true]
          \/ pl = [true; true; true]
          \/ exists pl', pl = true :: true :: true :: true :: pl') as Hpl.
  { destruct pl as [|[] [|[] [|[] [|[] pl]]]]; eauto 10; exfalso;
      first [ apply (Hp 0%nat); [lia|reflexivity]
            | apply (Hp 1%nat); [lia|reflexivity]
            | apply (Hp 2%nat); [lia|reflexivity]
            | apply (Hp 3%nat); [lia|reflexivity] ]. }
  clear Hp.
  destruct Hpl as [->|[->|[->|[->|[pl' ->]]]]];
    repeat first
      [ progress cbn -[memcpy decide]
      | rewrite Nat.eqb_refl
      | rewrite (decide_False (P := 0 <> 0)) by (intros H; apply H; reflexivity)
      | match goal with
        | |- context [decide (Z.to_N n < sz)%N] =>
            destruct (decide (Z.to_N n < sz)%N) as [?|_]; [lia|]
        | |- context [decide (n < 0)] =>
            destruct (decide (n < 0)) as [?|_]; [lia|]
        | |- context [decide (reply < 0)] =>
            destruct (decide (reply < 0)) as [?|_]; [lia|]
        end
      | rewrite memcpy_memcpy ];
    destruct cb as [f|]; cbn -[memcpy];
    (eexists; split; [reflexivity|]); cbn -[memcpy];
    rewrite <- ?app_assoc; (split; [|reflexivity]);
    apply set_eq; intros x; specialize (Hok x); set_unfold; intuition lia.
Qed.

Lemma send_then_full_write_round_trip_witness :
  exists w',
    run [send_six; Do_callback (writeable 6)] open_instance open_world
      = Some ([0; 0], open_instance, w') /\
    live w' = live open_world.
Proof.
  destruct (send_then_full_write_round_trip open_instance six 6%N
              (Some 7%nat) 70%nat 0 6 open_world)
    as (w' & E & Hl & _).
  - exact open_world_ok.
  - reflexivity.
  - reflexivity.
  - discriminate.
  - intros k _. simpl. rewrite lookup_nil. discriminate.
  - lia.
  - lia.
  - lia.
  - exists w'. split; [exact E|exact Hl].
Defined.

(** ** wsio_close and wsio_destroy, call by call *)

Lemma post_cancel_pending_ios_log fuel : forall i w,
  post (cancel_pending_ios fuel i) w (fun i' w' =>
    log w' = log w ++ cancellations (queue i)).
Proof.
  induction fuel as [|fuel IH]; intros i w; simpl;
    unfold list_get_head_item, list_item_get_value, queue in *;
    destruct (pending_io_list i) as [la [|it rest]] eqn:E; simpl; wp;
    rewrite ?app_nil_r; try done.
  unfold indicate_send_complete. wp_case; wp.
  - apply post_list_remove_head. intros w4 E4.
    wp_apply IH. intros i5 w5 E5. simpl in E5. rewrite E5. trace.
    rewrite <- app_assoc. reflexivity.
  - apply post_list_remove_head. intros w4 E4.
    wp_apply IH. intros i5 w5 E5. simpl in E5. rewrite E5. trace.
    reflexivity.
Qed.

Lemma post_conj {A} (m : M A) w (Q1 Q2 : A -> world -> Prop) :
  post m w Q1 -> post m w Q2 -> post m w (fun a w' => Q1 a w' /\ Q2 a w').
Proof. unfold post. destruct (m w) as [[a w']|]; auto. Qed.

(** X5.  [wsio_close] on an instance that is neither NOT_OPEN nor OPENING
    answers 0, completes every queued write with IO_SEND_CANCELLED in
    queue order, then destroys the engine context, then calls the
    close-complete callback when there is one; it leaves the instance
    NOT_OPEN with an empty queue and the callbacks untouched, and a second
    [wsio_close] answers the non-zero value of line 637 and does
    nothing. *)
Theorem wsio_close_cancels_in_order (i : WSIO_INSTANCE)
    (cc : option fnptr) (ctx : context) (w : world) :
  io_state i <> IO_STATE_NOT_OPEN -> io_state i <> IO_STATE_OPENING ->
  exists i' w',
    wsio_close (Some i) cc ctx w = Some (0, Some i', w') /\
    io_state i' = IO_STATE_NOT_OPEN /\ queue i' = [] /\
    callbacks_of i' = callbacks_of i /\
    log w' = log w ++ cancellations (queue i)
             ++ [Call_lws_context_destroy (ws_context i)]
             ++ opt_call cc (fun f => Call_on_io_close_complete f ctx) /\
    forall cc2 ctx2,
      wsio_close (Some i') cc2 ctx2 w' = Some (637, Some i', w').
Proof.
  intros Hn Ho.
  destruct (wsio_close_returns i cc ctx w) as (r & i' & w' & E).
  assert (post (wsio_close (Some i) cc ctx) w (fun ro w' =>
            log w' = log w ++ cancellations (queue i)
                     ++ [Call_lws_context_destroy (ws_context i)]
                     ++ opt_call cc (fun f => Call_on_io_close_complete f ctx)))
    as Hlog.
  { unfold wsio_close. rewrite decide_False by exact Hn.
    rewrite decide_False by exact Ho. wp.
    wp_apply (post_conj _ _ _ _
                (post_cancel_pending_ios
                   (length (val (pending_io_list i))) i w)
                (post_cancel_pending_ios_log
                   (length (val (pending_io_list i))) i w)).
    intros i1 w1 [(_ & _ & Hx & _) Hl]. rewrite Hx. wp.
    destruct cc; wp; simpl; trace; rewrite <- ?app_assoc; reflexivity. }
  pose proof (post_elim _ _ _ _ _ Hlog E) as El. cbv beta in El.
  destruct (post_elim _ _ _ _ _ (post_wsio_close i cc ctx w) E)
    as (i2 & Ei & Hc & _ & _ & Hr).
  simpl in *. injection Ei as <-.
  destruct Hr as [(-> & _ & Hs' & Hq)|(_ & Hx & _)]; [|done].
  exists i', w'. split_and!; try done; [auto|].
  intros cc2 ctx2. unfold wsio_close.
  rewrite decide_True by exact Hs'. reflexivity.
Qed.

Lemma wsio_close_cancels_in_order_witness :
  exists i' w',
    wsio_close (Some open_instance) (Some 5%nat) 50%nat open_world
      = Some (0, Some i', w') /\
    io_state i' = IO_STATE_NOT_OPEN.
Proof.
  destruct (wsio_close_cancels_in_order open_instance (Some 5%nat) 50%nat
              open_world)
    as (i' & w' & E & Hs & _).
  - discriminate.
  - discriminate.
  - exists i', w'. split; [exact E|exact Hs].
Defined.

Lemma post_wsio_close_log i cc ctx w :
  post (wsio_close (Some i) cc ctx) w (fun _ w' =>
    log w' = log w ++ close_calls i cc ctx).
Proof.
  unfold wsio_close, close_calls. wp_case; wp; [rewrite app_nil_r; done|].
  wp_case; wp.
  - unfold indicate_open_complete, opt_call.
    destruct (on_io_open_complete i), cc; wp; trace;
      rewrite <- ?app_assoc; reflexivity.
  - wp_apply (post_conj _ _ _ _
                (post_cancel_pending_ios
                   (length (val (pending_io_list i))) i w)
                (post_cancel_pending_ios_log
                   (length (val (pending_io_list i))) i w)).
    intros i1 w1 [(_ & _ & Hx & _) Hl]. rewrite Hx. wp.
    destruct cc; wp; simpl; trace; rewrite <- ?app_assoc; reflexivity.
Qed.

Lemma wsio_destroy_log i w r o w1 w' :
  wsio_close (Some i) None 0%nat w = Some (r, o, w1) ->
  wsio_destroy (Some i) w = Some (tt, w') ->
  log w' = log w1.
Proof.
  intros E Ed.
  assert (post (wsio_destroy (Some i)) w (fun _ w' => log w' = log w1)) as Hp.
  { unfold wsio_destroy. apply post_bind. unfold post at 1. rewrite E.
    destruct o; wp; apply post_list_destroy; intros w7 E7; wp; trace;
      reflexivity. }
  exact (post_elim _ _ _ _ _ Hp Ed).
Qed.

(** X6.  [wsio_destroy] always returns, and the calls it makes are those
    of a [wsio_close] without a callback: nothing for an instance that is
    not open, IO_OPEN_CANCELLED to a pending open, IO_SEND_CANCELLED to
    every queued write in queue order, and then the destruction of the
    engine context. *)
Theorem wsio_destroy_closes_first (i : WSIO_INSTANCE) (w : world) :
  exists w', wsio_destroy (Some i) w = Some (tt, w') /\
             log w' = log w ++ close_calls i None 0%nat.
Proof.
  destruct (wsio_close_returns i None 0%nat w) as (r & i1 & w1 & E).
  destruct (wsio_destroy_returns i w) as [w' Ed].
  exists w'. split; [exact Ed|].
  rewrite (wsio_destroy_log _ _ _ _ _ _ E Ed).
  exact (post_elim _ _ _ _ _ (post_wsio_close_log i None 0%nat w) E).
Qed.

(** ** A logic of traces *)

Section Emits.

Context {A B : Type}.

Implicit Types (w : world).

Lemma emits_ret (a : A) w (Q : A -> list call -> Prop) :
  Q a [] -> emits (ret a) w Q.
Proof. intros H. exists []. rewrite app_nil_r. auto. Qed.

Lemma emits_bind (m : M A) (k : A -> M B) w (Q : B -> list call -> Prop) :
  emits m w (fun a l1 => forall w1, emits (k a) w1 (fun b l2 => Q b (l1 ++ l2))) ->
  emits (bind m k) w Q.
Proof.
  unfold emits, post, bind. destruct (m w) as [[a w1]|]; [|auto].
  intros (l1 & E1 & H). specialize (H w1). destruct (k a w1) as [[b w2]|]; [|auto].
  destruct H as (l2 & E2 & H). exists (l1 ++ l2). rewrite E2, E1, app_assoc. auto.
Qed.

Lemma emits_mono (m : M A) w (Q Q' : A -> list call -> Prop) :
  emits m w Q -> (forall a l, Q a l -> Q' a l) -> emits m w Q'.
Proof.
  unfold emits. intros H HQ. eapply post_mono; [exact H|].
  intros a w' (l & E & Hl). eauto.
Qed.

Lemma emits_undefined w (Q : A -> list call -> Prop) : emits undefined w Q.
Proof. exact I. Qed.

Lemma emits_elim (m : M A) w Q a w' :
  emits m w Q -> m w = Some (a, w') -> exists l, log w' = log w ++ l /\ Q a l.
Proof. intros H E. exact (post_elim _ _ _ _ _ H E). Qed.

End Emits.

Lemma emits_emit (c : call) w (Q : unit -> list call -> Prop) :
  Q tt [c] -> emits (emit c) w Q.
Proof. intros H. exists [c]. auto. Qed.

Lemma emits_malloc w (Q : option ptr -> list call -> Prop) :
  (forall p, Q p []) -> emits amqpalloc_malloc w Q.
Proof.
  intros H. unfold emits, post, amqpalloc_malloc.
  destruct (hd true (plan w)); exists []; simpl; rewrite app_nil_r; auto.
Qed.

Lemma emits_free (p : option ptr) w (Q : unit -> list call -> Prop) :
  Q tt [] -> emits (amqpalloc_free p) w Q.
Proof.
  intros H. unfold emits, post, amqpalloc_free.
  destruct p; exists []; simpl; rewrite app_nil_r; auto.
Qed.

Ltac ep_next :=
  cbv beta;
  lazymatch goal with
  | |- forall _ : world, emits _ _ _ => intros ?
  | |- _ => idtac
  end.

Ltac ep_step :=
  lazymatch goal with
  | |- emits (bind _ _) _ _ => apply emits_bind
  | |- emits (ret _) _ _ => apply emits_ret; ep_next
  | |- emits (emit _) _ _ => apply emits_emit; ep_next
  | |- emits amqpalloc_malloc _ _ => apply emits_malloc; intros ?; ep_next
  | |- emits (amqpalloc_free _) _ _ => apply emits_free; ep_next
  | |- emits undefined _ _ => apply emits_undefined
  | |- emits (let _ := _ in _) _ _ => cbv zeta
  end.

Ltac ep_case :=
  lazymatch goal with
  | |- emits (match ?x with _ => _ end) _ _ => destruct x eqn:?
  end.

Ltac ep := repeat ep_step.

Ltac ep_all := repeat first [ep_step | ep_case].

Tactic Notation "ep_apply" constr(lem) :=
  eapply emits_mono; [apply lem | cbv beta].

(** ** The configuration over histories *)

Lemma configured_trans i i1 i2 l1 l2 :
  configured i i1 l1 -> configured i1 i2 l2 -> configured i i2 (l1 ++ l2).
Proof.
  intros [E1 H1] [E2 H2]. split; [congruence|].
  apply Forall_app. split; [exact H1|].
  eapply Forall_impl; [exact H2|]. intros c Hc.
  unfold settings in E1. simplify_eq.
  destruct c; simpl in *; try exact I; congruence.
Qed.

Ltac conf :=
  unfold configured, settings; simpl; rewrite ?app_nil_r; simpl;
  repeat first [ apply Forall_nil_2 | apply Forall_cons_2 | exact I
               | reflexivity | split | assumption ].

Lemma conf_indicate_send_complete i0 p r w :
  emits (indicate_send_complete p r) w (fun _ l => Forall (as_configured i0) l).
Proof. unfold indicate_send_complete. ep_all; conf. Qed.

Lemma conf_on_writeable i n w :
  emits (on_writeable i n) w (configured i).
Proof.
  unfold on_writeable, fail_pending_io, remove_pending_io, list_remove,
    after_list_remove, indicate_error, indicate_send_complete,
    list_item_get_value, list_get_head_item.
  ep_all; conf.
Qed.

Lemma conf_on_ws_callback i reason in_ len e w :
  emits (on_ws_callback i reason in_ len e) w
    (fun ri l => configured i ri.2 l).
Proof.
  unfold on_ws_callback. destruct reason.
  - unfold indicate_open_complete, indicate_error. ep_all; conf.
  - unfold indicate_open_complete, indicate_error. ep_all; conf.
  - ep. ep_apply conf_on_writeable. intros i1 l1 H1 ?. ep.
    rewrite app_nil_r. exact H1.
  - ep_all; conf.
  - ep_all; conf. simpl. rewrite Heqo. reflexivity.
  - ep; conf.
Qed.

Lemma conf_cancel_pending_ios fuel : forall i w,
  emits (cancel_pending_ios fuel i) w (configured i).
Proof.
  induction fuel as [|fuel IH]; intros i w; simpl;
    unfold list_get_head_item, list_item_get_value; ep_case; ep; try conf.
  ep_apply (conf_indicate_send_complete i). intros _ l1 H1 ?. ep.
  unfold list_remove. ep_case; ep.
  - ep_apply IH. intros i1 l2 [E2 H2]. rewrite !app_nil_r.
    split; [exact E2|]. apply Forall_app. split; [exact H1|exact H2].
  - ep_apply IH. intros i1 l2 [E2 H2]. rewrite !app_nil_r.
    split; [exact E2|]. apply Forall_app. split; [exact H1|exact H2].
Qed.

Lemma conf_wsio_close i cc ctx w :
  emits (wsio_close (Some i) cc ctx) w (fun ro l =>
    configured i (still i ro.2) l).
Proof.
  unfold wsio_close. ep_case; ep; [conf|].
  ep_case; ep.
  - unfold indicate_open_complete. ep_all; conf.
  - ep_apply conf_cancel_pending_ios. intros i1 l1 [E1 H1] ?.
    ep_all; (split; [exact E1|]); rewrite ?app_nil_r;
      (apply Forall_app; split; [exact H1|]); conf.
Qed.

Lemma conf_wsio_open i oc br er ctx r1 r2 w :
  emits (wsio_open (Some i) oc br er ctx r1 r2) w (fun ro l =>
    configured i (still i ro.2) l).
Proof.
  unfold wsio_open, wsio_open_reentrant. cbn [lws_service]. ep_all; conf.
Qed.

Lemma conf_log_bytes i f bs : logger_log i = Some f -> forall w,
  emits (log_bytes f bs) w (fun _ l => Forall (as_configured i) l).
Proof.
  intros Ef. induction bs as [|b bs IH]; intros w; simpl; ep; [conf|].
  ep_apply IH. intros _ l Hl. simpl. apply Forall_cons_2; [exact Ef|exact Hl].
Qed.

Lemma conf_add_pending_io i buf sz cb ctx w :
  emits (add_pending_io i buf sz cb ctx) w (fun ri l => configured i ri.2 l).
Proof. unfold add_pending_io, list_add. ep_all; conf. Qed.

Lemma conf_wsio_send i buffer sz cb ctx reply w :
  emits (wsio_send (Some i) buffer sz cb ctx reply) w (fun ro l =>
    configured i (still i ro.2) l).
Proof.
  unfold wsio_send. destruct buffer as [buf|]; ep; [|conf].
  ep_case; ep; [conf|]. ep_case; ep; [conf|].
  assert (forall w0, emits (match logger_log i with
                | Some f => log_bytes f (memcpy buf sz)
                | None => ret tt
                end) w0 (fun _ l => Forall (as_configured i) l)) as Hlog.
  { intros w0. ep_case; ep; [apply conf_log_bytes; assumption|conf]. }
  ep_apply Hlog. intros _ l1 H1 ?. ep.
  ep_apply conf_add_pending_io. intros [r i1] l2 [E2 H2] ?. simpl in *.
  ep_all; (split; [exact E2|]); rewrite ?app_nil_r;
    repeat first [ assumption | apply Forall_app; split
                 | apply Forall_nil_2 | apply Forall_cons_2; [exact I|] ].
Qed.

Lemma conf_lws_service events : forall i w,
  emits (lws_service events i) w (configured i).
Proof.
  induction events as [|e events IH]; intros i w; simpl; ep; [conf|].
  ep_apply conf_on_ws_callback. intros [r i1] l1 H1 ?. simpl in *.
  ep_apply IH. intros i2 l2 H2. exact (configured_trans _ _ _ _ _ H1 H2).
Qed.

Lemma conf_wsio_dowork i events w :
  emits (wsio_dowork (Some i) events) w (fun o l =>
    configured i (still i o) l).
Proof.
  unfold wsio_dowork. ep_case; ep; [|conf].
  ep_apply conf_lws_service. intros i1 l1 [E1 H1] ?. ep.
  rewrite app_nil_r. split; [exact E1|].
  apply Forall_cons_2; [exact I|exact H1].
Qed.

Lemma conf_step c i w :
  emits (step c i) w (fun ri l => configured i ri.2 l).
Proof.
  destruct c as [oc br er ctx r1 r2|cc ctx|buf sz cb ctx wr|evs|e]; simpl; ep.
  - ep_apply conf_wsio_open. intros [r o] l H ?. ep. rewrite app_nil_r.
    exact H.
  - ep_apply conf_wsio_close. intros [r o] l H ?. ep. rewrite app_nil_r.
    exact H.
  - ep_apply conf_wsio_send. intros [r o] l H ?. ep. rewrite app_nil_r.
    exact H.
  - ep_apply conf_wsio_dowork. intros o l H ?. ep. rewrite app_nil_r.
    exact H.
  - apply conf_on_ws_callback.
Qed.

Lemma conf_run cs : forall i w,
  emits (run cs i) w (fun ri l => configured i ri.2 l).
Proof.
  induction cs as [|c cs IH]; intros i w; simpl; ep; [conf|].
  ep_apply conf_step. intros [r i1] l1 H1 ?. simpl in *. ep.
  ep_apply IH. intros [rs i2] l2 H2 ?. simpl in *. ep. rewrite app_nil_r.
  exact (configured_trans _ _ _ _ _ H1 H2).
Qed.

(** What [wsio_create] copies into the instance. *)
Lemma wsio_create_copies c lg w i w' :
  wsio_create (Some c) lg w = Some (Some i, w') ->
  log w' = log w /\
  logger_log i = lg /\ cfg_host c = Some (val (host i)) /\
  port i = cfg_port c /\ use_ssl i = cfg_use_ssl c /\
  cfg_relative_path c = Some (val (relative_path i)) /\
  match head (val (protocols i)) with Some p => name p | None => None end
    = cfg_protocol_name c /\
  val <$> trusted_ca i = cfg_trusted_ca c.
Proof.
  intros H.
  assert (post (wsio_create (Some c) lg) w (fun o w' =>
            forall i, o = Some i ->
              log w' = log w /\
              logger_log i = lg /\ cfg_host c = Some (val (host i)) /\
              port i = cfg_port c /\ use_ssl i = cfg_use_ssl c /\
              cfg_relative_path c = Some (val (relative_path i)) /\
              match head (val (protocols i)) with
              | Some p => name p
              | None => None
              end = cfg_protocol_name c /\
              val <$> trusted_ca i = cfg_trusted_ca c))
    as Hp.
  { unfold wsio_create.
    repeat first
      [ wp_step
      | apply post_list_create; intros ? ? ? ?
      | apply post_list_destroy; intros ? ?
      | wp_case ];
      intros i0 [=]; subst.
    all: simpl; trace; split_and!; reflexivity. }
  exact (post_elim _ _ _ _ _ Hp H i eq_refl).
Qed.

(** X9.  Whatever the history of a created instance, no call and no event
    changes what was configured: the instance it leaves has the address,
    the logger, the host, port, TLS flag, path, protocol name and trust
    anchor it was created with.  Each connection attempt goes to the host,
    port and path of the configuration, with its TLS flag and its protocol
    name; the certificate callback hands OpenSSL the configured trust
    anchor; and each byte logged goes to the logger given to
    [wsio_create]. *)
Theorem calls_use_the_configuration (c : WSIO_CONFIG) (lg : option fnptr)
    (w0 : world) (i0 : WSIO_INSTANCE) (w1 : world)
    (cs : list api_call) (rs : list Z) (i : WSIO_INSTANCE) (w : world) :
  wsio_create (Some c) lg w0 = Some (Some i0, w1) ->
  run cs i0 w1 = Some (rs, i, w) ->
  settings i = settings i0 /\
  configured_with c lg i /\
  exists l, log w = log w0 ++ l /\ Forall (as_given c lg) l.
Proof.
  intros Hc Hrun.
  destruct (wsio_create_copies _ _ _ _ _ Hc)
    as (El & Elg & Eh & Ep & Es & Er & En & Eca).
  destruct (emits_elim _ _ _ _ _ (conf_run cs i0 w1) Hrun)
    as (l & E & Hset & Hl).
  split; [exact Hset|]. split.
  - unfold settings in Hset. unfold configured_with.
    injection Hset as _ -> -> -> -> -> -> ->. split_and!; assumption.
  - exists l. split; [rewrite E, El; reflexivity|].
    eapply Forall_impl; [exact Hl|]. intros x Hx.
    destruct x; simpl in *; try exact I.
    + congruence.
    + destruct Hx as (-> & -> & -> & -> & ->). split_and!; congruence.
    + congruence.
Qed.

Lemma calls_use_the_configuration_witness :
  exists rs i w l,
    run demo_history fresh_instance fresh_world = Some (rs, i, w) /\
    settings i = settings fresh_instance /\
    configured_with demo_config None i /\
    log w = log empty_world ++ l /\
    Forall (as_given demo_config None) l.
Proof.
  pose proof (calls_use_the_configuration demo_config None empty_world
                fresh_instance fresh_world demo_history) as H.
  edestruct H as (Hs & Hc & l & El & Hl);
    [exact fresh_instance_created|vm_compute; reflexivity|].
  eexists _, _, _, l. split; [vm_compute; reflexivity|].
  split_and!; [exact Hs|exact Hc|exact El|exact Hl].
Defined.

(** ** A logic of owned blocks *)

Lemma owns_perm bl bl' w L : bl ≡ₚ bl' -> owns bl w L -> owns bl' w L.
Proof.
  intros Hp (Hok & Hnd & Hd & Hl). split_and!.
  - exact Hok.
  - rewrite <- Hp. exact Hnd.
  - intros p Hin. apply Hd. rewrite Hp. exact Hin.
  - rewrite Hl. f_equal. apply list_to_set_perm_L. exact Hp.
Qed.

Section Holds.

Context {A B : Type}.

Lemma holds_ret (a : A) bl bl' (Q : A -> list ptr -> Prop) :
  bl ≡ₚ bl' -> Q a bl' -> holds (ret a) bl Q.
Proof.
  intros Hp HQ w L Ho. exists bl'. split; [|exact HQ].
  exact (owns_perm _ _ _ _ Hp Ho).
Qed.

Lemma holds_ret_same (a : A) bl (Q : A -> list ptr -> Prop) :
  Q a bl -> holds (ret a) bl Q.
Proof. apply holds_ret. reflexivity. Qed.

Lemma holds_bind (m : M A) (k : A -> M B) bl (Q : B -> list ptr -> Prop) :
  holds m bl (fun a bl1 => holds (k a) bl1 Q) -> holds (bind m k) bl Q.
Proof.
  intros H w L Ho. apply post_bind. eapply post_mono; [exact (H w L Ho)|].
  intros a w1 (bl1 & Ho1 & Hk). exact (Hk w1 L Ho1).
Qed.

Lemma holds_mono (m : M A) bl (Q Q' : A -> list ptr -> Prop) :
  holds m bl Q -> (forall a bl', Q a bl' -> Q' a bl') -> holds m bl Q'.
Proof.
  intros H HQ w L Ho. eapply post_mono; [exact (H w L Ho)|].
  intros a w1 (bl1 & Ho1 & Hq). exists bl1. auto.
Qed.

Lemma holds_undefined bl (Q : A -> list ptr -> Prop) : holds undefined bl Q.
Proof. intros w L _. exact I. Qed.

(** What a computation establishes from every world, it establishes next
    to what it does to the heap. *)
Lemma holds_with (m : M A) bl (Q : A -> list ptr -> Prop) (R : A -> Prop) :
  holds m bl Q -> (forall w, post m w (fun a _ => R a)) ->
  holds m bl (fun a bl' => Q a bl' /\ R a).
Proof.
  intros H HR w L Ho. specialize (H w L Ho). specialize (HR w).
  unfold post in *. destruct (m w) as [[a w']|]; [|exact I].
  destruct H as (bl' & Ho' & HQ). exists bl'. auto.
Qed.

Lemma holds_elim (m : M A) bl (Q : A -> list ptr -> Prop) w L a w' :
  holds m bl Q -> owns bl w L -> m w = Some (a, w') ->
  exists bl', owns bl' w' L /\ Q a bl'.
Proof. intros H Ho E. exact (post_elim _ _ _ _ _ (H w L Ho) E). Qed.

End Holds.

Lemma holds_emit (c : call) bl (Q : unit -> list ptr -> Prop) :
  Q tt bl -> holds (emit c) bl Q.
Proof. intros HQ w L Ho. exists bl. split; [exact Ho|exact HQ]. Qed.

(** An allocation fails and changes nothing, or adds a block that was not
    there. *)
Lemma holds_malloc bl (Q : option ptr -> list ptr -> Prop) :
  Q None bl -> (forall p, p ∉ bl -> Q (Some p) (p :: bl)) ->
  holds amqpalloc_malloc bl Q.
Proof.
  intros Hn Hs w L (Hok & Hnd & Hd & Hl). unfold post, amqpalloc_malloc.
  destruct (hd true (plan w)).
  - assert (next w ∉ live w) as Hfresh.
    { intros Hin. specialize (Hok _ Hin). lia. }
    rewrite Hl, elem_of_union, elem_of_list_to_set in Hfresh.
    exists (next w :: bl). split.
    + split_and!.
      * unfold heap_ok. intros p. simpl.
        rewrite elem_of_union, elem_of_singleton.
        intros [->|Hin]; [lia|]. specialize (Hok _ Hin). lia.
      * apply NoDup_cons. split; [tauto|exact Hnd].
      * intros p. rewrite elem_of_cons. intros [->|Hin]; [tauto|auto].
      * simpl. rewrite Hl. apply (assoc_L (∪)).
    + apply Hs. tauto.
  - exists bl. split; [|exact Hn]. split_and!; auto.
Qed.

(** A block that is freed is one of the blocks held, and is held no
    longer. *)
Lemma holds_free (a : ptr) bl bl' (Q : unit -> list ptr -> Prop) :
  bl ≡ₚ a :: bl' -> Q tt bl' -> holds (amqpalloc_free (Some a)) bl Q.
Proof.
  intros Hp HQ w L Ho. apply (owns_perm _ _ _ _ Hp) in Ho.
  destruct Ho as (Hok & Hnd & Hd & Hl). apply NoDup_cons in Hnd as [Ha Hnd].
  exists bl'. split; [|exact HQ]. split_and!.
  - unfold heap_ok. simpl. intros p Hin. apply Hok.
    apply elem_of_difference in Hin as [Hin _]. exact Hin.
  - exact Hnd.
  - intros p Hin. apply Hd. apply elem_of_cons. right. exact Hin.
  - simpl. rewrite Hl. specialize (Hd a (list_elem_of_here _ _)).
    apply set_eq. intros x. set_unfold. intuition (subst; tauto).
Qed.

Lemma holds_free_null bl (Q : unit -> list ptr -> Prop) :
  Q tt bl -> holds (amqpalloc_free None) bl Q.
Proof. intros HQ w L Ho. exists bl. split; [exact Ho|exact HQ]. Qed.

(** [bl] without its first [a]. *)
Ltac without a bl :=
  match bl with
  | a :: ?r => r
  | ?x :: ?r => let r' := without a r in constr:(x :: r')
  | ?l1 ++ ?l2 => let l1' := without a l1 in constr:(l1' ++ l2)
  | ?l1 ++ ?l2 => let l2' := without a l2 in constr:(l1 ++ l2')
  end.

Ltac hp_free :=
  lazymatch goal with
  | |- holds (amqpalloc_free (Some ?a)) ?bl _ =>
      let bl' := without a bl in
      apply (holds_free a bl bl'); [solve_Permutation|cbv beta]
  end.

Ltac hp_step :=
  lazymatch goal with
  | |- holds (bind _ _) _ _ => apply holds_bind
  | |- holds (ret _) _ (fun _ _ => holds _ _ _) =>
      apply holds_ret_same; cbv beta
  | |- holds (emit _) _ _ => apply holds_emit; cbv beta
  | |- holds amqpalloc_malloc _ _ =>
      apply holds_malloc; [|intros ? ?]; cbv beta iota
  | |- holds (amqpalloc_free (Some _)) _ _ => hp_free
  | |- holds (amqpalloc_free None) _ _ => apply holds_free_null; cbv beta
  | |- holds undefined _ _ => apply holds_undefined
  | |- holds (let _ := _ in _) _ _ => cbv zeta
  end.

Ltac hp_case :=
  lazymatch goal with
  | |- holds (match ?x with _ => _ end) _ _ => destruct x eqn:?
  end.

(** The last [ret]: the blocks held are those the postcondition names, in
    some order. *)
Ltac hp_done :=
  lazymatch goal with
  | |- holds (ret _) _ _ =>
      eapply holds_ret; [|cbv beta; reflexivity]; simpl; solve_Permutation
  end.

Ltac hp := repeat hp_step.

Ltac hp_all := repeat first [hp_step | hp_case].

Tactic Notation "hp_apply" constr(lem) :=
  eapply holds_mono; [apply lem | cbv beta].

(** ** The blocks of the operations *)

Lemma holds_indicate_error i bl (Q : unit -> list ptr -> Prop) :
  Q tt bl -> holds (indicate_error i) bl Q.
Proof. intros H. unfold indicate_error. hp_all; try apply holds_ret_same; exact H. Qed.

Lemma holds_indicate_open_complete i r bl (Q : unit -> list ptr -> Prop) :
  Q tt bl -> holds (indicate_open_complete i r) bl Q.
Proof. intros H. unfold indicate_open_complete. hp_all; try apply holds_ret_same; exact H. Qed.

Lemma holds_indicate_send_complete p r bl (Q : unit -> list ptr -> Prop) :
  Q tt bl -> holds (indicate_send_complete p r) bl Q.
Proof. intros H. unfold indicate_send_complete. hp_all; try apply holds_ret_same; exact H. Qed.

Lemma holds_log_bytes f bs : forall bl (Q : unit -> list ptr -> Prop),
  Q tt bl -> holds (log_bytes f bs) bl Q.
Proof.
  induction bs as [|b bs IH]; intros bl Q H; simpl.
  - apply holds_ret_same. exact H.
  - hp. apply IH. exact H.
Qed.

(** Removing the head write frees its three blocks. *)
Lemma holds_remove_pending_io i la it rest F :
  pending_io_list i = Owned la (it :: rest) ->
  holds (remove_pending_io i it (val it)) (F ++ blocks i)
    (fun i' bl' => bl' = F ++ blocks i').
Proof.
  intros E. unfold remove_pending_io, list_remove, after_list_remove, blocks,
    own_blocks, queue.
  rewrite E. simpl. rewrite Nat.eqb_refl. hp. simpl.
  destruct (decide (0 <> 0)) as [?|_]; [done|]. hp_done.
Qed.

Lemma holds_fail_pending_io i la it rest F :
  pending_io_list i = Owned la (it :: rest) ->
  holds (fail_pending_io i it (val it)) (F ++ blocks i)
    (fun i' bl' => bl' = F ++ blocks i').
Proof.
  intros E. unfold fail_pending_io. hp.
  apply holds_indicate_send_complete. hp.
  destruct (is_partially_sent (val (val it))); hp.
  - apply holds_indicate_error. hp.
    apply (holds_remove_pending_io (set_io_state i IO_STATE_ERROR) la it rest).
    exact E.
  - apply (holds_remove_pending_io i la it rest). exact E.
Qed.

Lemma holds_rerequest (a : WSIO_INSTANCE) bl
    (Q : WSIO_INSTANCE -> list ptr -> Prop) :
  Q a bl ->
  holds (match list_get_head_item (pending_io_list a) with
         | Some _ => emit (Call_lws_callback_on_writable (wsi a)) ;; ret a
         | None => ret a
         end) bl Q.
Proof.
  intros H. destruct (list_get_head_item _); hp; apply holds_ret_same;
    exact H.
Qed.

Lemma holds_on_writeable i n :
  holds (on_writeable i n) (blocks i) (fun i' bl' => bl' = blocks i').
Proof.
  unfold on_writeable, list_item_get_value.
  destruct (pending_io_list i) as [la [|it rest]] eqn:E; simpl.
  { apply holds_ret_same. reflexivity. }
  hp.
  - (* the framing buffer cannot be allocated *)
    hp_apply (holds_fail_pending_io i la it rest []); [exact E|].
    intros i1 bl1 ->. apply holds_rerequest. reflexivity.
  - (* the framing buffer is allocated *)
    hp_case; [|hp_case]; hp.
    + hp_apply (holds_fail_pending_io i la it rest [p]); [exact E|].
      intros i1 bl1 ->. hp. apply holds_rerequest. reflexivity.
    + apply holds_rerequest. unfold blocks, own_blocks, queue. rewrite E.
      simpl. rewrite Nat.eqb_refl. reflexivity.
    + apply holds_indicate_send_complete. hp.
      unfold list_remove, after_list_remove, blocks, own_blocks, queue.
      rewrite E. simpl. rewrite Nat.eqb_refl. hp. simpl.
      destruct (decide (0 <> 0)) as [?|_]; [done|]. hp.
      apply holds_rerequest. reflexivity.
Qed.

Lemma holds_on_ws_callback i reason in_ len e :
  holds (on_ws_callback i reason in_ len e) (blocks i)
    (fun ri bl' => bl' = blocks ri.2).
Proof.
  unfold on_ws_callback. destruct reason.
  - destruct (io_state i); hp;
      first [apply holds_indicate_open_complete | apply holds_indicate_error];
      hp; apply holds_ret_same; reflexivity.
  - destruct (io_state i); hp;
      first [apply holds_indicate_open_complete | apply holds_indicate_error];
      hp; apply holds_ret_same; reflexivity.
  - hp. hp_apply holds_on_writeable. intros i1 bl1 ->.
    apply holds_ret_same. reflexivity.
  - hp_all; apply holds_ret_same; reflexivity.
  - hp_all; apply holds_ret_same; reflexivity.
  - apply holds_ret_same. reflexivity.
Qed.

Lemma holds_cancel_pending_ios fuel : forall i,
  holds (cancel_pending_ios fuel i) (blocks i) (fun i' bl' => bl' = blocks i').
Proof.
  induction fuel as [|fuel IH]; intros i; simpl;
    unfold list_get_head_item, list_item_get_value;
    destruct (pending_io_list i) as [la [|it rest]] eqn:E; simpl;
    try (apply holds_ret_same; reflexivity); hp.
  apply holds_indicate_send_complete. hp.
  unfold list_remove, blocks, own_blocks, queue.
  rewrite E. simpl. rewrite Nat.eqb_refl. hp.
  hp_apply IH. intros i1 bl1 ->. reflexivity.
Qed.

Lemma holds_close_complete (cc : option fnptr) ctx bl
    (Q : unit -> list ptr -> Prop) :
  Q tt bl ->
  holds (match cc with
         | Some f => emit (Call_on_io_close_complete f ctx)
         | None => ret tt
         end) bl Q.
Proof. intros H. destruct cc; hp; try apply holds_ret_same; exact H. Qed.

Lemma holds_wsio_close i cc ctx :
  holds (wsio_close (Some i) cc ctx) (blocks i)
    (fun ro bl' => bl' = blocks (still i ro.2)).
Proof.
  unfold wsio_close. hp_case; [apply holds_ret_same; reflexivity|].
  hp. hp_case; hp.
  - apply holds_indicate_open_complete. hp.
    apply holds_close_complete. hp. apply holds_ret_same. reflexivity.
  - hp_apply holds_cancel_pending_ios. intros i1 bl1 ->. hp.
    apply holds_close_complete. hp. apply holds_ret_same. reflexivity.
Qed.

Lemma holds_wsio_open i oc br er ctx r1 r2 :
  holds (wsio_open (Some i) oc br er ctx r1 r2) (blocks i)
    (fun ro bl' => bl' = blocks (still i ro.2)).
Proof.
  unfold wsio_open, wsio_open_reentrant. cbn [lws_service].
  hp_case; [apply holds_ret_same; reflexivity|].
  hp. simpl. destruct r1; [|apply holds_ret_same; reflexivity].
  hp. simpl. destruct r2; hp; apply holds_ret_same; reflexivity.
Qed.

(** Queueing a write adds its three blocks, or none when an allocation
    fails. *)
Lemma holds_add_pending_io i buf sz cb ctx :
  holds (add_pending_io i buf sz cb ctx) (blocks i)
    (fun ri bl' => bl' = blocks ri.2).
Proof.
  unfold add_pending_io, list_add.
  repeat first [hp_step | progress simpl];
    try (apply holds_ret_same; reflexivity).
  eapply holds_ret; [|reflexivity].
  unfold blocks, own_blocks, queue. simpl. rewrite flat_map_app. simpl.
  solve_Permutation.
Qed.

Lemma holds_wsio_send i buffer sz cb ctx reply :
  holds (wsio_send (Some i) buffer sz cb ctx reply) (blocks i)
    (fun ro bl' => bl' = blocks (still i ro.2)).
Proof.
  unfold wsio_send. destruct buffer as [buf|];
    [|apply holds_ret_same; reflexivity].
  hp_case; [apply holds_ret_same; reflexivity|].
  hp_case; [apply holds_ret_same; reflexivity|].
  hp. assert (forall (Q : unit -> list ptr -> Prop), Q tt (blocks i) ->
    holds (match logger_log i with
           | Some f => log_bytes f (memcpy buf sz)
           | None => ret tt
           end) (blocks i) Q) as Hlog.
  { intros Q H. destruct (logger_log i);
      [apply holds_log_bytes|apply holds_ret_same]; exact H. }
  apply Hlog. hp. hp_apply holds_add_pending_io. intros [r i1] bl1 ->.
  simpl. hp_case; [apply holds_ret_same; reflexivity|].
  hp. hp_case; apply holds_ret_same; reflexivity.
Qed.

Lemma holds_lws_service events : forall i,
  holds (lws_service events i) (blocks i) (fun i' bl' => bl' = blocks i').
Proof.
  induction events as [|e events IH]; intros i; simpl.
  - apply holds_ret_same. reflexivity.
  - hp. hp_apply holds_on_ws_callback. intros [r i1] bl1 ->. simpl.
    apply IH.
Qed.

Lemma holds_wsio_dowork i events :
  holds (wsio_dowork (Some i) events) (blocks i)
    (fun o bl' => bl' = blocks (still i o)).
Proof.
  unfold wsio_dowork. hp_case; [|apply holds_ret_same; reflexivity].
  hp. hp_apply holds_lws_service. intros i1 bl1 ->.
  apply holds_ret_same. reflexivity.
Qed.

Lemma holds_step c i :
  holds (step c i) (blocks i) (fun ri bl' => bl' = blocks ri.2).
Proof.
  destruct c as [oc br er ctx r1 r2|cc ctx|buf sz cb ctx wr|evs|e]; simpl.
  - hp. hp_apply holds_wsio_open. intros [r o] bl1 ->.
    apply holds_ret_same. reflexivity.
  - hp. hp_apply holds_wsio_close. intros [r o] bl1 ->.
    apply holds_ret_same. reflexivity.
  - hp. hp_apply holds_wsio_send. intros [r o] bl1 ->.
    apply holds_ret_same. reflexivity.
  - hp. hp_apply holds_wsio_dowork. intros o bl1 ->.
    apply holds_ret_same. reflexivity.
  - apply holds_on_ws_callback.
Qed.

Lemma holds_run cs : forall i,
  holds (run cs i) (blocks i) (fun ri bl' => bl' = blocks ri.2).
Proof.
  induction cs as [|c cs IH]; intros i; simpl.
  - apply holds_ret_same. reflexivity.
  - hp. hp_apply holds_step. intros [r i1] bl1 ->. simpl.
    hp. hp_apply IH. intros [rs i2] bl2 ->. simpl.
    apply holds_ret_same. reflexivity.
Qed.

Lemma holds_wsio_create cfg lg :
  holds (wsio_create cfg lg) []
    (fun o bl' => bl' = match o with Some i => blocks i | None => [] end).
Proof.
  unfold wsio_create, list_create, list_destroy.
  destruct cfg as [c|]; [|apply holds_ret_same; reflexivity].
  destruct (cfg_host c), (cfg_protocol_name c), (cfg_relative_path c);
    try (apply holds_ret_same; reflexivity).
  repeat first [hp_step | hp_case | progress simpl];
    first [apply holds_ret_same; reflexivity | hp_done].
Qed.

Lemma holds_wsio_destroy i :
  Inv i -> holds (wsio_destroy (Some i)) (blocks i) (fun _ bl' => bl' = []).
Proof.
  intros HI. unfold wsio_destroy. hp.
  hp_apply (holds_with _ _ _
              (fun ro => exists i1, ro.2 = Some i1 /\ queue i1 = [])
              (holds_wsio_close i None 0%nat)).
  { intros w. wp_apply post_wsio_close.
    intros [r o] w1 (i1 & Eo & _ & _ & Hi & _). exists i1.
    split; [exact Eo|]. apply Hi. exact HI. }
  intros [r o] bl1 [-> (i1 & Eo & Hq)]. simpl in *. subst o. simpl.
  unfold blocks, own_blocks, list_destroy, queue in *.
  destruct (pending_io_list i1) as [la q]. simpl in *. subst q.
  destruct (trusted_ca i1); simpl; hp; reflexivity.
Qed.

Lemma owns_nothing w : heap_ok w -> owns [] w (live w).
Proof.
  intros Hok. split_and!.
  - exact Hok.
  - apply NoDup_nil_2.
  - intros p Hin. apply elem_of_nil in Hin. destruct Hin.
  - simpl. symmetry. apply (left_id_L ∅ (∪)).
Qed.

(** ** The heap over histories *)

Lemma reachable_owns cfg lg w0 i0 w1 cs rs i w :
  heap_ok w0 ->
  wsio_create cfg lg w0 = Some (Some i0, w1) ->
  run cs i0 w1 = Some (rs, i, w) ->
  owns (blocks i) w (live w0).
Proof.
  intros Hok Hc Hrun.
  destruct (holds_elim _ _ _ _ _ _ _ (holds_wsio_create cfg lg)
              (owns_nothing _ Hok) Hc) as (bl1 & Ho1 & ->).
  destruct (holds_elim _ _ _ _ _ _ _ (holds_run cs i0) Ho1 Hrun)
    as (bl2 & Ho2 & ->).
  exact Ho2.
Qed.

(** X10.  At every point of every history of a created instance the heap
    is the heap from before [wsio_create] together with the blocks the
    instance points to: its own, the list, the copied strings, the protocol
    table and, for each queued write, the node, the PENDING_SOCKET_IO and
    the bytes.  These blocks are pairwise distinct, none of them was live
    before, and nothing else has been left allocated. *)
Theorem heap_is_instance_blocks (cfg : option WSIO_CONFIG)
    (lg : option fnptr) (w0 : world) (i0 : WSIO_INSTANCE) (w1 : world)
    (cs : list api_call) (rs : list Z) (i : WSIO_INSTANCE) (w : world) :
  heap_ok w0 ->
  wsio_create cfg lg w0 = Some (Some i0, w1) ->
  run cs i0 w1 = Some (rs, i, w) ->
  NoDup (blocks i) /\
  (forall p, p ∈ blocks i -> p ∉ live w0) /\
  live w = list_to_set (blocks i) ∪ live w0.
Proof.
  intros Hok Hc Hrun.
  destruct (reachable_owns _ _ _ _ _ _ _ _ _ Hok Hc Hrun)
    as (_ & Hnd & Hd & Hl).
  split_and!; [exact Hnd|exact Hd|exact Hl].
Qed.

Lemma heap_is_instance_blocks_witness :
  exists rs i w,
    run queued_history fresh_instance fresh_world = Some (rs, i, w) /\
    NoDup (blocks i) /\
    live w = list_to_set (blocks i) ∪ live empty_world.
Proof.
  pose proof (heap_is_instance_blocks (Some demo_config) None empty_world
                fresh_instance fresh_world queued_history) as H.
  edestruct H as (Hn & _ & Hl);
    [exact empty_world_ok|exact fresh_instance_created
    |vm_compute; reflexivity|].
  eexists _, _, _. split; [vm_compute; reflexivity|].
  split; [exact Hn|exact Hl].
Defined.

(** X11.  [wsio_destroy] after any history of a created instance returns
    and leaves live exactly the blocks that were live before
    [wsio_create]: whatever was opened, queued, written or cancelled in
    between, nothing is leaked. *)
Theorem wsio_destroy_frees_everything (cfg : option WSIO_CONFIG)
    (lg : option fnptr) (w0 : world) (i0 : WSIO_INSTANCE) (w1 : world)
    (cs : list api_call) (rs : list Z) (i : WSIO_INSTANCE) (w : world) :
  heap_ok w0 ->
  wsio_create cfg lg w0 = Some (Some i0, w1) ->
  run cs i0 w1 = Some (rs, i, w) ->
  exists w', wsio_destroy (Some i) w = Some (tt, w') /\ live w' = live w0.
Proof.
  intros Hok Hc Hrun.
  pose proof (reachable_owns _ _ _ _ _ _ _ _ _ Hok Hc Hrun) as Ho.
  destruct (reachable_spec _ _ _ _ _ _ _ _ _ Hc Hrun) as [HI _].
  destruct (wsio_destroy_returns i w) as [w' E]. exists w'.
  split; [exact E|].
  destruct (holds_elim _ _ _ _ _ _ _ (holds_wsio_destroy i HI) Ho E)
    as (bl & (_ & _ & _ & Hl) & ->).
  rewrite Hl. simpl. apply (left_id_L ∅ (∪)).
Qed.

Lemma wsio_destroy_frees_everything_witness :
  exists rs i w w',
    run queued_history fresh_instance fresh_world = Some (rs, i, w) /\
    wsio_destroy (Some i) w = Some (tt, w') /\
    live w' = live empty_world.
Proof.
  pose proof (wsio_destroy_frees_everything (Some demo_config) None
                empty_world fresh_instance fresh_world queued_history) as H.
  edestruct H as (w' & Ed & Hl);
    [exact empty_world_ok|exact fresh_instance_created
    |vm_compute; reflexivity|].
  eexists _, _, _, w'. split; [vm_compute; reflexivity|].
  split; [exact Ed|exact Hl].
Defined.

(** ** The states that are reached *)

(** X12.  From [wsio_create] on, whatever is called and whatever the engine
    reports, the instance is NOT_OPEN, OPENING or OPEN: no history reaches
    ERROR or CLOSING.  Writes are queued only while the instance is OPEN,
    and none of them is marked partially sent. *)
Theorem error_and_closing_never_entered (cfg : option WSIO_CONFIG)
    (lg : option fnptr) (w0 : world) (i0 : WSIO_INSTANCE) (w1 : world)
    (cs : list api_call) (rs : list Z) (i : WSIO_INSTANCE) (w : world) :
  wsio_create cfg lg w0 = Some (Some i0, w1) ->
  run cs i0 w1 = Some (rs, i, w) ->
  (io_state i = IO_STATE_NOT_OPEN \/ io_state i = IO_STATE_OPENING
   \/ io_state i = IO_STATE_OPEN) /\
  (io_state i <> IO_STATE_OPEN -> queue i = []) /\
  Forall unsent (queue i).
Proof.
  intros Hc Hrun.
  destruct (reachable_spec _ _ _ _ _ _ _ _ _ Hc Hrun)
    as [(Hu & He & Hcl & Hq) _].
  split_and!; [| |exact Hu].
  - destruct (io_state i); auto; done.
  - intros Ho. apply Hq. destruct (io_state i); auto; done.
Qed.

Lemma error_and_closing_never_entered_witness :
  exists rs i w,
    run demo_history fresh_instance fresh_world = Some (rs, i, w) /\
    (io_state i = IO_STATE_NOT_OPEN \/ io_state i = IO_STATE_OPENING
     \/ io_state i = IO_STATE_OPEN) /\
    Forall unsent (queue i).
Proof.
  pose proof (error_and_closing_never_entered (Some demo_config) None
                empty_world fresh_instance fresh_world demo_history) as H.
  edestruct H as (Hs & _ & Hu);
    [exact fresh_instance_created|vm_compute; reflexivity|].
  eexists _, _, _. split; [vm_compute; reflexivity|].
  split; [exact Hs|exact Hu].
Defined.

(** ** The state machine *)

Lemma state_on_ws_callback i reason in_ len e w :
  Inv i ->
  post (on_ws_callback i reason in_ len e) w (fun ri _ =>
    ri.1 = 0 /\ io_state ri.2 = event_state (io_state i) reason).
Proof.
  intros (Hu & _). unfold on_ws_callback. destruct reason.
  - unfold indicate_open_complete, indicate_error.
    destruct (io_state i) eqn:Es; wp_all; simpl; rewrite ?Es; done.
  - unfold indicate_open_complete, indicate_error.
    destruct (io_state i) eqn:Es; wp_all; simpl; rewrite ?Es; done.
  - wp. wp_apply post_on_writeable. intros i1 w1 (_ & _ & _ & Hs). wp.
    simpl. destruct (Hs Hu) as [_ ->]. destruct (io_state i); done.
  - wp_all. simpl. destruct (io_state i); done.
  - wp_all; simpl; destruct (io_state i); done.
  - wp. simpl. destruct (io_state i); done.
Qed.

Lemma state_lws_service events : forall i w,
  Inv i ->
  post (lws_service events i) w (fun i' _ =>
    io_state i' = foldl event_state (io_state i) (ev_reason <$> events)).
Proof.
  induction events as [|e events IH]; intros i w HI; simpl; wp; [done|].
  wp_apply (post_conj _ _ _ _
              (post_on_ws_callback i (ev_reason e) (ev_in e) (ev_len e)
                 (ev_replies e) w)
              (state_on_ws_callback i (ev_reason e) (ev_in e) (ev_len e)
                 (ev_replies e) w HI)).
  intros [r i1] w1 [(_ & _ & _ & Hi) [_ Hs]]. simpl in *.
  wp_apply IH; [exact (Hi HI)|]. intros i2 w2 ->. rewrite Hs. reflexivity.
Qed.

Lemma state_wsio_open i oc br er ctx r1 r2 w :
  post (wsio_open (Some i) oc br er ctx r1 r2) w (fun ro _ =>
    answer_ok (io_state i) (Do_open oc br er ctx r1 r2) ro.1 /\
    io_state (still i ro.2)
      = next_state (io_state i) (Do_open oc br er ctx r1 r2) ro.1).
Proof.
  unfold wsio_open, wsio_open_reentrant, answer_ok, next_state, open_result.
  cbn [lws_service].
  wp_case; wp.
  { simpl. rewrite decide_False by assumption. done. }
  assert (io_state i = IO_STATE_NOT_OPEN) as Es
    by (destruct (io_state i); done).
  destruct r1, r2; simpl; wp; simpl; rewrite ?Es;
    (rewrite decide_True by reflexivity); done.
Qed.

Lemma state_wsio_send i buffer sz cb ctx reply w :
  post (wsio_send (Some i) buffer sz cb ctx reply) w (fun ro _ =>
    answer_ok (io_state i) (Do_send buffer sz cb ctx reply) ro.1 /\
    io_state (still i ro.2) = io_state i).
Proof.
  unfold wsio_send, answer_ok.
  destruct buffer as [buf|]; wp; simpl.
  2:{ destruct (decide (io_state i = IO_STATE_OPEN)); auto. }
  wp_case; wp; simpl.
  { destruct (decide (io_state i = IO_STATE_OPEN)); auto. }
  wp_case; wp; simpl.
  { rewrite decide_False by assumption. auto. }
  assert (io_state i = IO_STATE_OPEN) as Es by (destruct (io_state i); done).
  assert (post (match logger_log i with
                | Some f => log_bytes f (memcpy buf sz)
                | None => ret tt
                end) w (fun _ _ => True)) as Hlog.
  { wp_case; wp; [|done]. apply post_log_bytes. auto. }
  eapply post_mono; [exact Hlog|]. cbv beta. intros _ w1 _. wp.
  wp_apply post_add_pending_io.
  intros [r i1] w2 (_ & _ & Hs & Hr). simpl in *.
  destruct Hr as [(-> & _)|[Hr ->]].
  - wp_case; [done|]. wp.
    wp_case; wp; simpl; (rewrite decide_True by exact Es); auto.
  - wp_case; [|done]. wp. simpl. rewrite decide_True by exact Es. auto.
Qed.

Lemma state_step c i w :
  Inv i ->
  post (step c i) w (fun ri _ =>
    Inv ri.2 /\ answer_ok (io_state i) c ri.1 /\
    io_state ri.2 = next_state (io_state i) c ri.1).
Proof.
  intros HI.
  assert (post (step c i) w (fun ri _ =>
            answer_ok (io_state i) c ri.1 /\
            io_state ri.2 = next_state (io_state i) c ri.1)) as Hs.
  2:{ eapply post_mono; [exact (post_conj _ _ _ _ (post_step c i w) Hs)|].
      intros ri w' [(Hi & _) H]. split; [exact (Hi HI)|exact H]. }
  destruct c as [oc br er ctx r1 r2|cc ctx|buf sz cb ctx wr|evs|e]; simpl.
  - wp. wp_apply state_wsio_open. intros [r o] w1 H. wp. exact H.
  - wp. wp_apply post_wsio_close.
    intros [r o] w1 (i1 & Eo & _ & _ & _ & Hr). simpl in *. subst o. wp.
    simpl. destruct Hr as [(-> & Hn & Hs & _)|(-> & Hn & -> & _)].
    + rewrite decide_False by exact Hn. done.
    + rewrite decide_True by exact Hn. done.
  - wp. wp_apply state_wsio_send. intros [r o] w1 H. wp. exact H.
  - unfold wsio_dowork. wp. wp_case; wp; simpl; [|done].
    wp_apply state_lws_service; [exact HI|]. intros i1 w1 Hs. wp. simpl.
    done.
  - wp_apply state_on_ws_callback; [exact HI|]. intros [r i1] w1 H. exact H.
Qed.

Lemma state_run cs : forall i w,
  Inv i ->
  post (run cs i) w (fun ri _ =>
    follows (io_state i) cs ri.1 /\
    io_state ri.2 = final_state (io_state i) cs ri.1).
Proof.
  induction cs as [|c cs IH]; intros i w HI; simpl; wp; [done|].
  wp_apply state_step; [exact HI|]. intros [r i1] w1 (HI1 & Ha & Hs).
  simpl in *. wp. wp_apply IH; [exact HI1|].
  intros [rs i2] w2 [Hf Hs2]. simpl in *. wp. simpl. rewrite <- Hs. done.
Qed.

(** X13.  The state machine of the module.  Over any history of a created
    instance, each call gives an answer that the state allows, and the
    states follow five transitions: an accepted [wsio_open] takes NOT_OPEN
    to OPENING, the established event takes OPENING to OPEN, the
    connection-error event takes OPENING to NOT_OPEN, an accepted
    [wsio_close] takes OPENING and OPEN to NOT_OPEN, and nothing else
    changes the state: not a send, a failed write, a received frame or an
    event that arrives in the wrong state.  [wsio_dowork] hands events to
    the instance only while it is OPENING or OPEN. *)
Theorem states_follow_the_machine (cfg : option WSIO_CONFIG)
    (lg : option fnptr) (w0 : world) (i0 : WSIO_INSTANCE) (w1 : world)
    (cs : list api_call) (rs : list Z) (i : WSIO_INSTANCE) (w : world) :
  wsio_create cfg lg w0 = Some (Some i0, w1) ->
  run cs i0 w1 = Some (rs, i, w) ->
  follows IO_STATE_NOT_OPEN cs rs /\
  io_state i = final_state IO_STATE_NOT_OPEN cs rs.
Proof.
  intros Hc Hrun.
  destruct (wsio_create_fresh _ _ _ _ _ Hc) as (HI & _ & _ & Es & _).
  pose proof (post_elim _ _ _ _ _ (state_run cs i0 w1 HI) Hrun) as H.
  simpl in H. rewrite Es in H. exact H.
Qed.

Lemma states_follow_the_machine_witness :
  exists rs i w,
    run demo_history fresh_instance fresh_world = Some (rs, i, w) /\
    follows IO_STATE_NOT_OPEN demo_history rs /\
    io_state i = final_state IO_STATE_NOT_OPEN demo_history rs.
Proof.
  pose proof (states_follow_the_machine (Some demo_config) None empty_world
                fresh_instance fresh_world demo_history) as H.
  edestruct H as (Hf & Hs);
    [exact fresh_instance_created|vm_compute; reflexivity|].
  eexists _, _, _. split; [vm_compute; reflexivity|].
  split; [exact Hf|exact Hs].
Defined.

(** ** A write that fails *)

Example sending_instance_reached :
  run [send_six] open_instance open_world
  = Some ([0], sending_instance, sending_world).
Proof. vm_compute. reflexivity. Qed.

(** X14.  A writeable event whose write fails, because the framing buffer
    cannot be allocated or because [lws_write] answers a negative value,
    completes the write at the head of the queue with IO_SEND_ERROR, frees
    it and removes it from the queue, keeps the other writes, asks for
    another writeable event when one is left, and changes nothing else of
    the instance: the state stays what it was and on_io_error is not
    called. *)
Theorem failed_write_drops_the_head (i : WSIO_INSTANCE) (la : ptr)
    (it : LIST_ITEM_HANDLE (owned PENDING_SOCKET_IO))
    (rest : list (LIST_ITEM_HANDLE (owned PENDING_SOCKET_IO)))
    (n : Z) (w : world) :
  heap_ok w ->
  pending_io_list i = Owned la (it :: rest) ->
  unsent it ->
  hd true (plan w) = false \/ n < 0 ->
  exists w',
    on_ws_callback i LWS_CALLBACK_CLIENT_WRITEABLE None 0%N
      {| lws_write_reply := n; BIO_new_reply := true |} w
      = Some (0, set_pending_io_list i (Owned la rest), w') /\
    log w' = log w ++ failed_write_calls i it rest (hd true (plan w)) n /\
    live w' = live w ∖ list_to_set (item_blocks it).
Proof.
  intros Hok E Hu Hf.
  destruct i as [sf brc occ erc lgr octx st l wc ws pt h rp pn ca ps ssl].
  cbn in E. subst l.
  destruct it as [na [ia [[ba bs] sz cb ctx pl psent]]].
  unfold unsent in Hu. cbn in Hu. subst psent.
  unfold on_ws_callback, on_writeable, fail_pending_io, remove_pending_io,
    list_remove, after_list_remove, list_get_head_item, list_item_get_value,
    indicate_send_complete, failed_write_calls, item_blocks, opt_call,
    set_pending_io_list.
  cbn [val head addr lws_write_reply bytes size on_send_complete
       callback_context is_partially_sent remove_node pending_io_list wsi].
  unfold bind, ret, emit, amqpalloc_malloc, amqpalloc_free.
  destruct w as [lv nx pln lg]. unfold heap_ok in Hok.
  cbn [live next plan log] in *.
  destruct (hd true pln) eqn:Ep;
    [destruct Hf as [?|Hn]; [done|];
     destruct (decide (n < 0)) as [_|?]; [|done]|];
    destruct cb as [f|], rest as [|it2 rest];
    repeat first
      [ progress cbn
      | rewrite Nat.eqb_refl
      | rewrite (decide_False (P := 0 <> 0))
          by (intros H; apply H; reflexivity) ];
    (eexists; split; [reflexivity|]); cbn;
    rewrite <- ?app_assoc, ?app_nil_r; (split; [reflexivity|]);
    apply set_eq; intros x; specialize (Hok x); set_unfold; intuition lia.
Qed.

Lemma failed_write_drops_the_head_witness :
  exists w',
    on_ws_callback sending_instance LWS_CALLBACK_CLIENT_WRITEABLE None 0%N
      {| lws_write_reply := -1; BIO_new_reply := true |} sending_world
      = Some (0, set_pending_io_list sending_instance (Owned 1%nat []), w') /\
    log w' = log sending_world
             ++ [ Call_lws_write (Some 101%nat) six 6%N (-1);
                  Call_on_send_complete 7%nat 70%nat IO_SEND_ERROR ].
Proof.
  destruct (failed_write_drops_the_head sending_instance 1%nat queued_six []
              (-1) sending_world)
    as (w' & E & Hl & _).
  - intros p Hp. simpl in *. set_unfold. simpl. lia.
  - reflexivity.
  - reflexivity.
  - right. lia.
  - exists w'. split; [exact E|exact Hl].
Defined.

(** ** Callbacks inside lws_client_connect *)

Lemma open_completions_app l1 l2 :
  open_completions (l1 ++ l2) = open_completions l1 ++ open_completions l2.
Proof.
  induction l1 as [|c l1 IH]; simpl; [reflexivity|].
  destruct c; simpl; rewrite IH; reflexivity.
Qed.

(** What holds of the result from every world holds next to what holds of
    the calls made. *)
Lemma emits_post {A} (m : M A) w (Q : A -> list call -> Prop)
    (R : A -> world -> Prop) :
  emits m w Q -> post m w R ->
  emits m w (fun a l => Q a l /\ exists w', R a w').
Proof.
  unfold emits, post. destruct (m w) as [[a w']|]; [|auto].
  intros (l & E & HQ) HR. exists l. eauto.
Qed.

Lemma opens_on_writeable i n w :
  emits (on_writeable i n) w (fun _ l => open_completions l = []).
Proof.
  unfold on_writeable, fail_pending_io, remove_pending_io, list_remove,
    after_list_remove, indicate_error, indicate_send_complete,
    list_item_get_value, list_get_head_item.
  ep_all; reflexivity.
Qed.

Lemma opens_on_ws_callback i reason in_ len e w :
  Inv i ->
  emits (on_ws_callback i reason in_ len e) w (fun ri l =>
    open_completions l ++ pending_open ri.2 = pending_open i).
Proof.
  intros HI. unfold on_ws_callback, pending_open. destruct reason.
  - unfold indicate_open_complete, indicate_error.
    destruct (io_state i) eqn:Es, (on_io_open_complete i) eqn:Ef; simpl;
      rewrite ?Ef; ep_all; simpl; rewrite ?Es, ?Ef; reflexivity.
  - unfold indicate_open_complete, indicate_error.
    destruct (io_state i) eqn:Es, (on_io_open_complete i) eqn:Ef; simpl;
      rewrite ?Ef; ep_all; simpl; rewrite ?Es, ?Ef; reflexivity.
  - ep. eapply emits_mono;
      [exact (emits_post _ _ _ _ (opens_on_writeable i (lws_write_reply e) w)
                (post_on_writeable i (lws_write_reply e) w))|].
    cbv beta. intros i1 l1 [El (w1 & Hc & _ & _ & Hs)] ?. ep. simpl.
    destruct HI as (Hu & _). destruct (Hs Hu) as [_ ->].
    unfold callbacks_of in Hc. injection Hc as _ Ho _ Hx.
    rewrite app_nil_r, El, Ho, Hx. reflexivity.
  - ep_all. simpl. reflexivity.
  - ep_all; simpl; reflexivity.
  - ep. simpl. reflexivity.
Qed.

Lemma opens_lws_service events : forall i w,
  Inv i ->
  emits (lws_service events i) w (fun i' l =>
    open_completions l ++ pending_open i' = pending_open i).
Proof.
  induction events as [|e events IH]; intros i w HI; simpl; ep;
    [reflexivity|].
  eapply emits_mono;
    [exact (emits_post _ _ _ _
              (opens_on_ws_callback i (ev_reason e) (ev_in e) (ev_len e)
                 (ev_replies e) w HI)
              (post_on_ws_callback i (ev_reason e) (ev_in e) (ev_len e)
                 (ev_replies e) w))|].
  cbv beta. intros [r i1] l1 [E1 (w1 & _ & _ & _ & Hi)] ?. simpl in *.
  ep_apply IH; [exact (Hi HI)|]. intros i2 l2 E2.
  rewrite open_completions_app, <- app_assoc, E2. exact E1.
Qed.

(** The callbacks made before [lws_client_connect] returns, on the instance
    that [wsio_open] has made OPENING. *)
Lemma callbacks_during_connect during i w :
  Inv i ->
  emits (lws_service during i) w (fun i' l =>
    io_state i' = foldl event_state (io_state i) (ev_reason <$> during) /\
    callbacks_of i' = callbacks_of i /\
    open_completions l ++ pending_open i' = pending_open i).
Proof.
  intros HI.
  eapply emits_mono;
    [exact (emits_post _ _ _ _ (opens_lws_service during i w HI)
              (post_conj _ _ _ _ (post_lws_service during i w)
                 (state_lws_service during i w HI)))|].
  cbv beta. intros i' l [E (w' & (Hc & _) & Hs)]. auto.
Qed.

(** X7.  Whatever callbacks libwebsockets makes before [lws_client_connect]
    returns, a [wsio_open] on a NOT_OPEN instance calls on_io_open_complete
    at most once.  When it answers 0, the instance is in the state in which
    those callbacks leave an OPENING instance, and the completion has been
    made or is still owed.  When it answers 606 because the connection could
    not be made, the instance is NOT_OPEN and owes nothing, and the
    completion has been made all the same when a handshake event arrived
    inside the call: that open is both completed and refused.  When no
    context could be created (584), nothing is completed or owed. *)
Theorem open_completed_at_most_once (i : WSIO_INSTANCE)
    (oc br er : option fnptr) (ctx : context) (r1 r2 : option ptr)
    (during : list lws_event) (w : world)
    (r : Z) (i' : WSIO_INSTANCE) (w' : world) :
  Inv i -> io_state i = IO_STATE_NOT_OPEN ->
  wsio_open_reentrant (Some i) oc br er ctx r1 r2 during w
    = Some (r, Some i', w') ->
  exists l, log w' = log w ++ l /\
    r = open_result r1 r2 /\
    io_state i' = (if decide (r = 0) then state_after during
                   else IO_STATE_NOT_OPEN) /\
    open_completions l ++ pending_open i' =
      (if decide (r = 0 \/
                  (r = 606 /\ state_after during <> IO_STATE_OPENING))
       then open_owed oc ctx else []).
Proof.
  intros HI Hs H.
  assert (emits (wsio_open_reentrant (Some i) oc br er ctx r1 r2 during) w
            (fun ro l => forall i', ro.2 = Some i' ->
               ro.1 = open_result r1 r2 /\
               io_state i' = (if decide (ro.1 = 0) then state_after during
                              else IO_STATE_NOT_OPEN) /\
               open_completions l ++ pending_open i' =
                 (if decide (ro.1 = 0 \/
                             (ro.1 = 606 /\
                              state_after during <> IO_STATE_OPENING))
                  then open_owed oc ctx else []))) as He.
  { unfold wsio_open_reentrant, open_result.
    rewrite decide_False by (intros Hn; apply Hn; exact Hs).
    ep. destruct r1 as [c|]; simpl.
    2:{ ep. intros i1 [= <-]. unfold pending_open. simpl. rewrite Hs. done. }
    ep.
    set (i1 := set_io_state _ IO_STATE_OPENING).
    assert (Inv i1) as HI1.
    { destruct HI as (Hu & _ & _ & Hq). unfold Inv, queue in *. simpl.
      split_and!; try done. intros _. apply Hq. auto. }
    ep_apply (callbacks_during_connect during i1); [exact HI1|].
    intros i2 l2 (Hst & Hc & Ho) ?. simpl in Hst.
    fold (state_after during) in Hst.
    unfold callbacks_of in Hc. simpl in Hc. injection Hc as _ Hoc _ Hctx.
    assert (pending_open i1 = open_owed oc ctx) as Hp1 by reflexivity.
    rewrite Hp1 in Ho.
    assert (pending_open i2 =
            if decide (state_after during = IO_STATE_OPENING)
            then open_owed oc ctx else []) as Hp2.
    { unfold pending_open. rewrite Hst, Hoc, Hctx.
      destruct (state_after during); simpl; reflexivity. }
    destruct r2 as [s|]; simpl; ep.
    - intros i3 [= <-]. simpl. split; [reflexivity|].
      split; [exact Hst|]. rewrite app_nil_r. simpl. exact Ho.
    - intros i3 [= <-]. simpl. split; [reflexivity|]. split; [reflexivity|].
      rewrite open_completions_app. unfold pending_open at 1. simpl.
      rewrite !app_nil_r. rewrite Hp2 in Ho.
      destruct (decide (state_after during = IO_STATE_OPENING)) as [Eo|No].
      + rewrite decide_False by (intros [?|[_ ?]]; [lia|contradiction]).
        eapply (app_inv_tail (open_owed oc ctx)). exact Ho.
      + rewrite decide_True by (right; split; [reflexivity|exact No]).
        rewrite app_nil_r in Ho. exact Ho. }
  destruct (emits_elim _ _ _ _ _ He H) as (l & El & Hl).
  exists l. split; [exact El|]. exact (Hl i' eq_refl).
Qed.

Lemma fresh_instance_inv : Inv fresh_instance.
Proof. exact (proj1 (wsio_create_fresh _ _ _ _ _ fresh_instance_created)). Qed.

Lemma open_completed_at_most_once_witness :
  exists i' w' l,
    wsio_open_reentrant (Some fresh_instance) (Some 1%nat) (Some 2%nat)
      (Some 3%nat) 9%nat (Some 100%nat) None [connection_error] fresh_world
      = Some (606, Some i', w') /\
    log w' = log fresh_world ++ l /\
    io_state i' = IO_STATE_NOT_OPEN /\
    open_completions l ++ pending_open i' = [(1, 9)]%nat.
Proof.
  eexists _, _.
  pose proof (open_completed_at_most_once fresh_instance (Some 1%nat)
                (Some 2%nat) (Some 3%nat) 9%nat (Some 100%nat) None
                [connection_error] fresh_world 606) as H.
  edestruct H as (l & El & _ & Hs & Ho);
    [exact fresh_instance_inv|reflexivity|vm_compute; reflexivity|].
  exists l. split; [vm_compute; reflexivity|].
  split_and!; [exact El|exact Hs|exact Ho].
Defined.

(** X8.  When libwebsockets reports the connection error from inside
    [lws_client_connect] and that call then returns NULL, [wsio_open]
    answers 606 and leaves the instance NOT_OPEN, but it has called
    on_io_open_complete with IO_OPEN_ERROR (line 183) and it has destroyed
    the context twice: once in the callback (line 184) and once more after
    the call (line 604), when libwebsockets holds that context no
    longer. *)
Theorem failed_connect_destroys_the_context_twice (i : WSIO_INSTANCE)
    (oc br er : option fnptr) (ctx : context) (c : ptr) (e : lws_event)
    (w : world) :
  io_state i = IO_STATE_NOT_OPEN ->
  ev_reason e = LWS_CALLBACK_CLIENT_CONNECTION_ERROR ->
  exists i' w',
    wsio_open_reentrant (Some i) oc br er ctx (Some c) None [e] w
      = Some (606, Some i', w') /\
    io_state i' = IO_STATE_NOT_OPEN /\
    log w' = log w ++ failed_connect_calls i oc ctx c /\
    engine_run None (failed_connect_calls i oc ctx c) = None.
Proof.
  intros Hs He. unfold wsio_open_reentrant, failed_connect_calls.
  rewrite decide_False by (intros Hn; apply Hn; exact Hs).
  cbn [lws_service]. unfold on_ws_callback. rewrite He.
  unfold indicate_open_complete, opt_call, bind, ret, emit.
  destruct w as [lv nx pln lg].
  destruct oc as [f|]; simpl; eexists _, _;
    (split; [reflexivity|]); simpl;
    (split; [reflexivity|]); rewrite <- ?app_assoc; simpl;
    (split; [reflexivity|]);
    rewrite !decide_True by reflexivity; reflexivity.
Qed.

Lemma failed_connect_destroys_the_context_twice_witness :
  exists i' w',
    wsio_open_reentrant (Some fresh_instance) (Some 1%nat) (Some 2%nat)
      (Some 3%nat) 9%nat (Some 100%nat) None [connection_error] fresh_world
      = Some (606, Some i', w') /\
    log w' =
      [ Call_lws_create_context 0%nat (Some 100%nat);
        Call_lws_client_connect (Some 100%nat) "example.org" 443 true "/ws"
          (Some "AMQPWSB10"%string) None;
        Call_on_io_open_complete 1%nat 9%nat IO_OPEN_ERROR;
        Call_lws_context_destroy (Some 100%nat);
        Call_lws_context_destroy (Some 100%nat) ] /\
    engine_run None (log w') = None.
Proof.
  destruct (failed_connect_destroys_the_context_twice fresh_instance
              (Some 1%nat) (Some 2%nat) (Some 3%nat) 9%nat 100%nat
              connection_error fresh_world eq_refl eq_refl)
    as (i' & w' & E & _ & Hl & He).
  exists i', w'. split; [exact E|]. split; [exact Hl|].
  rewrite Hl. exact He.
Defined.
